(** * OpenNeuro MCP server: the GraphQL relay and its HTTP front

    A shallow embedding of [src/index.ts]: the tool registered by
    [OpenNeuroMCP.init], the relay [executeOpenNeuroGraphQLQuery] and the
    worker's [fetch] handler, together with the parts of the JavaScript
    runtime they call ([JSON.stringify], [JSON.parse], the Fetch API's
    [Response] body, [console.error]).

    Conventions of the embedding:
    - a string computed at run time is a list of UTF-16 code units
      ([jstring]); the constants of the program, which are ASCII, are
      [string]s and [js] turns one into code units; so is the path of a
      URL;
    - a JavaScript number is an IEEE-754 binary64 value ([Number]), rounded,
      written and read as ECMAScript says;
    - a JavaScript object is an association list in the order in which the
      language enumerates its properties;
    - [async] code is sequential here: every [await] is an ordinary call in
      a monad that threads the observable world and a possible exception. *)

From Stdlib Require Import String Ascii List ZArith NArith Lia Bool.
Import ListNotations.

Local Open Scope string_scope.
Local Open Scope list_scope.

(** ** Strings of the language *)

Module Text.

(** A code unit is a number below 65536. *)
Definition jstring : Type := list N.

Definition code (c : ascii) : N := N_of_ascii c.

(** The code units of a constant of the program: one for each of its
    characters, which are ASCII. *)
Definition js (s : string) : jstring := map code (list_ascii_of_string s).

Fixpoint jstring_eqb (a b : jstring) : bool :=
  match a, b with
  | [], [] => true
  | x :: a', y :: b' => N.eqb x y && jstring_eqb a' b'
  | _, _ => false
  end.

(** The characters the serializer and the parser name. *)
Definition dquote : N := 34.
Definition backslash : N := 92.
Definition slash : N := 47.
Definition comma : N := 44.
Definition colon : N := 58.
Definition lbracket : N := 91.
Definition rbracket : N := 93.
Definition lbrace : N := 123.
Definition rbrace : N := 125.
Definition minus : N := 45.
Definition plus : N := 43.
Definition dot : N := 46.
Definition space : N := 32.
Definition newline : N := 10.
Definition digit0 : N := 48.
Definition digit9 : N := 57.
Definition letter_e : N := 101.
Definition letter_E : N := 69.
Definition letter_u : N := 117.

Definition is_empty {A : Type} (l : list A) : bool :=
  match l with [] => true | _ => false end.

(** [s.slice(0, n)] *)
Definition slice0 (n : nat) (s : jstring) : jstring := firstn n s.

End Text.

(** ** Numbers of the language: IEEE-754 binary64 *)

Module Numbers.
Import Text.
Local Open Scope Z_scope.

(** A finite number is [m * 2^e], negated when [negative]. *)
Inductive Number : Type :=
| Zero (negative : bool)
| Finite (negative : bool) (m : positive) (e : Z)
| Infinite (negative : bool)
| NaN.

(** The finite numbers of binary64: 53 bits of mantissa, normalised unless
    the exponent is the least one. *)
Definition canonical (x : Number) : bool :=
  match x with
  | Finite _ m e =>
      (Zpos m <? 2 ^ 53) && (-1074 <=? e) && (e <=? 971)
      && ((2 ^ 52 <=? Zpos m) || (e =? -1074))
  | _ => true
  end.

Definition Number_eqb (x y : Number) : bool :=
  match x, y with
  | Zero a, Zero b => Bool.eqb a b
  | Finite a m e, Finite b m' e' => Bool.eqb a b && Pos.eqb m m' && Z.eqb e e'
  | Infinite a, Infinite b => Bool.eqb a b
  | NaN, NaN => true
  | _, _ => false
  end.

(** [Number.isFinite] *)
Definition is_finite (x : Number) : bool :=
  match x with
  | Zero _ | Finite _ _ _ => true
  | Infinite _ | NaN => false
  end.

(** The integer nearest to [a / b], the even one of two at the same
    distance. *)
Definition nearest_even (a b : Z) : Z :=
  let m := a / b in
  let r := a mod b in
  if 2 * r <? b then m
  else if b <? 2 * r then m + 1
  else if Z.even m then m else m + 1.

(** The Number value for the ratio [p / q] of a natural number and a
    positive one: the binary64 value nearest to it, ties to even. Every
    binary64 value is a multiple of [2^-1074]; the ratio is counted in that
    unit and its 53 leading bits are kept. *)
Definition round_ratio (negative : bool) (p q : Z) : Number :=
  let a := p * 2 ^ 1074 in
  let k := Z.max 0 (Z.log2 (a / q) - 52) in
  let m := nearest_even a (q * 2 ^ k) in
  let '(m, k) := if m =? 2 ^ 53 then (2 ^ 52, k + 1) else (m, k) in
  match m with
  | Zpos m' => if 2045 <? k then Infinite negative else Finite negative m' (k - 1074)
  | _ => Zero negative
  end.

(** The Number value for the decimal [s * 10^t]. *)
Definition round_decimal (negative : bool) (s t : Z) : Number :=
  if 0 <=? t then round_ratio negative (s * 10 ^ t) 1
  else round_ratio negative s (10 ^ (- t)).

(** The Number value for an integer. *)
Definition of_Z (z : Z) : Number := round_ratio (z <? 0) (Z.abs z) 1.

(** *** Number::toString

    For a finite number other than zero the language takes integers [n],
    [k] and [s] with [k] digits in [s], [s * 10^(n-k)] reading as the
    number and [k] as small as possible, the nearest such decimal when there
    are several. The candidates with [k] digits are the two decimals around
    the number; a decimal is kept when it reads back as the number. *)

Definition le_pow10 (L P Q : Z) : bool :=
  if 0 <=? L then 10 ^ L * Q <=? P else Q <=? P * 10 ^ (- L).

Fixpoint adjust (fuel : nat) (P Q L : Z) : Z :=
  match fuel with
  | O => L
  | S fuel' =>
      if negb (le_pow10 L P Q) then adjust fuel' P Q (L - 1)
      else if le_pow10 (L + 1) P Q then adjust fuel' P Q (L + 1)
      else L
  end.

(** The greatest [L] with [10^L <= P / Q], from an estimate in bits. *)
Definition log10_floor (P Q : Z) : Z :=
  adjust 4 P Q (((Z.log2 P - Z.log2 Q) * 30103) / 100000).

(** The two decimals with [k] digits around [P / Q], the nearer first. *)
Definition candidates_at (P Q L k : Z) : list (Z * Z) :=
  let t := L + 1 - k in
  let '(a, b) := if 0 <=? t then (P, Q * 10 ^ t) else (P * 10 ^ (- t), Q) in
  let lo := a / b in
  let r := a mod b in
  let hi := lo + 1 in
  if 2 * r <? b then [(lo, t); (hi, t)]
  else if b <? 2 * r then [(hi, t); (lo, t)]
  else if Z.even lo then [(lo, t); (hi, t)] else [(hi, t); (lo, t)].

(** Without the zeros at the end of the digits. *)
Fixpoint strip (fuel : nat) (c : Z * Z) : Z * Z :=
  match fuel with
  | O => c
  | S fuel' =>
      let '(s, t) := c in
      if (0 <? s) && (s mod 10 =? 0) then strip fuel' (s / 10, t + 1) else c
  end.

(** The decimal that is the number exactly. *)
Definition exact_decimal (m : positive) (e : Z) : Z * Z :=
  if 0 <=? e then (Zpos m * 2 ^ e, 0) else (Zpos m * 5 ^ (- e), e).

Definition reads_as (x : Number) (c : Z * Z) : bool :=
  (0 <? fst c) && Number_eqb (round_decimal false (fst c) (snd c)) x.

(** Seventeen digits tell any two binary64 values apart. *)
Definition significant_digits : list Z :=
  [1; 2; 3; 4; 5; 6; 7; 8; 9; 10; 11; 12; 13; 14; 15; 16; 17].

Fixpoint search (x : Number) (P Q L : Z) (ks : list Z) : option (Z * Z) :=
  match ks with
  | [] => None
  | k :: ks' =>
      match find (reads_as x) (map (strip 20) (candidates_at P Q L k)) with
      | Some c => Some c
      | None => search x P Q L ks'
      end
  end.

(** The digits [s] and the exponent [n - k] of a positive finite number. *)
Definition shortest (m : positive) (e : Z) : Z * Z :=
  let '(P, Q) := if 0 <=? e then (Zpos m * 2 ^ e, 1) else (Zpos m, 2 ^ (- e)) in
  match search (Finite false m e) P Q (log10_floor P Q) significant_digits with
  | Some c => c
  | None => exact_decimal m e
  end.

(** The decimal digits of a natural number, the first one first. *)
Fixpoint digits_acc (fuel : nat) (n : Z) (acc : list Z) : list Z :=
  match fuel with
  | O => acc
  | S fuel' =>
      if n <? 10 then n :: acc
      else digits_acc fuel' (n / 10) (n mod 10 :: acc)
  end.

Definition digits (n : Z) : list Z :=
  digits_acc (S (Z.to_nat (Z.log2 n))) n [].

Definition digit_unit (d : Z) : N := Z.to_N (48 + d).

Definition exponent_part (n : Z) : jstring :=
  letter_e :: (if n - 1 <? 0 then minus else plus)
           :: map digit_unit (digits (Z.abs (n - 1))).

(** The text for the digits [s] and the exponent [t = n - k]. *)
Definition format (c : Z * Z) : jstring :=
  let ds := map digit_unit (digits (fst c)) in
  let k := Z.of_nat (length ds) in
  let n := k + snd c in
  if (k <=? n) && (n <=? 21) then ds ++ repeat digit0 (Z.to_nat (n - k))
  else if (0 <? n) && (n <=? 21)
       then firstn (Z.to_nat n) ds ++ dot :: skipn (Z.to_nat n) ds
  else if (-6 <? n) && (n <=? 0)
       then digit0 :: dot :: repeat digit0 (Z.to_nat (- n)) ++ ds
  else match ds with
       | [] => []
       | [d] => d :: exponent_part n
       | d :: rest => d :: dot :: rest ++ exponent_part n
       end.

(** [String(x)] and [`${x}`] for a number [x]. *)
Definition Number_toString (x : Number) : jstring :=
  match x with
  | NaN => js "NaN"
  | Infinite false => js "Infinity"
  | Infinite true => js "-Infinity"
  | Zero _ => [digit0]
  | Finite false m e => format (shortest m e)
  | Finite true m e => minus :: format (shortest m e)
  end.

(** *** Reading a number of a JSON text

    The grammar of ECMA-404: an optional minus, an integer part without a
    needless zero in front, an optional fraction and an optional exponent.
    The literal is the decimal [s * 10^t] and its value the Number value for
    that decimal. *)

Definition digit_value (c : N) : option Z :=
  if (digit0 <=? c)%N && (c <=? digit9)%N then Some (Z.of_N c - 48) else None.

(** The longest run of digits at the head of the text. *)
Fixpoint take_digits (t : jstring) : list Z * jstring :=
  match t with
  | [] => ([], [])
  | c :: t' =>
      match digit_value c with
      | Some d => let (ds, r) := take_digits t' in (d :: ds, r)
      | None => ([], t)
      end
  end.

Definition decimal_value (ds : list Z) : Z :=
  fold_left (fun a d => a * 10 + d) ds 0.

(** The sign in front of a literal or of an exponent. *)
Definition take_minus (t : jstring) : bool * jstring :=
  match t with
  | c :: r => if (c =? minus)%N then (true, r) else (false, t)
  | [] => (false, t)
  end.

Definition take_sign (t : jstring) : bool * jstring :=
  match t with
  | c :: r =>
      if (c =? minus)%N then (true, r)
      else if (c =? plus)%N then (false, r)
      else (false, t)
  | [] => (false, t)
  end.

(** The digits after the point, when there is a point. *)
Definition take_fraction (t : jstring) : option (list Z * jstring) :=
  match t with
  | c :: r =>
      if (c =? dot)%N then
        match take_digits r with
        | ([], _) => None
        | (ds, r') => Some (ds, r')
        end
      else Some ([], t)
  | [] => Some ([], t)
  end.

(** The exponent, when there is one. *)
Definition take_exponent (t : jstring) : option (Z * jstring) :=
  match t with
  | c :: r =>
      if (c =? letter_e)%N || (c =? letter_E)%N then
        let (negative, r1) := take_sign r in
        match take_digits r1 with
        | ([], _) => None
        | (ds, r2) =>
            Some (if negative then - decimal_value ds else decimal_value ds, r2)
        end
      else Some (0, t)
  | [] => Some (0, t)
  end.

(** The literal after its sign. *)
Definition parse_magnitude (negative : bool) (t : jstring)
    : option (Number * jstring) :=
  match take_digits t with
  | ([], _) => None
  | (d :: more, t2) =>
      if (d =? 0) && negb (is_empty more) then None
      else
        match take_fraction t2 with
        | None => None
        | Some (fraction, t3) =>
            match take_exponent t3 with
            | None => None
            | Some (exponent, t4) =>
                Some (round_decimal negative
                        (decimal_value ((d :: more) ++ fraction))
                        (exponent - Z.of_nat (length fraction)),
                      t4)
            end
        end
  end.

Definition parse_number (t : jstring) : option (Number * jstring) :=
  let (negative, t1) := take_minus t in parse_magnitude negative t1.

End Numbers.

(** ** JSON values *)

Module Json.
Import Text Numbers.

Unset Elimination Schemes.
Inductive JSON : Type :=
| JNull
| JBool (b : bool)
| JNumber (x : Number)
| JString (s : jstring)
| JArray (items : list JSON)
| JObject (props : list (jstring * JSON)).
Set Elimination Schemes.

(** Induction with the hypotheses for the elements of arrays and the
    values of properties. *)
Fixpoint JSON_ind (P : JSON -> Prop)
  (Hnull : P JNull)
  (Hbool : forall b, P (JBool b))
  (Hnum : forall x, P (JNumber x))
  (Hstr : forall s, P (JString s))
  (Harr : forall items, Forall P items -> P (JArray items))
  (Hobj : forall props, Forall (fun kv => P (snd kv)) props -> P (JObject props))
  (v : JSON) {struct v} : P v :=
  let rec := JSON_ind P Hnull Hbool Hnum Hstr Harr Hobj in
  match v with
  | JNull => Hnull
  | JBool b => Hbool b
  | JNumber x => Hnum x
  | JString s => Hstr s
  | JArray items =>
      Harr items
        ((fix go (l : list JSON) : Forall P l :=
            match l with
            | [] => Forall_nil _
            | x :: l' => Forall_cons x (rec x) (go l')
            end) items)
  | JObject props =>
      Hobj props
        ((fix go (l : list (jstring * JSON)) : Forall (fun kv => P (snd kv)) l :=
            match l with
            | [] => Forall_nil _
            | kv :: l' => Forall_cons kv (rec (snd kv)) (go l')
            end) props)
  end.

(** *** Properties of an object

    The language enumerates the properties of an object with the array
    indices first, in ascending order, and the other names after them in the
    order in which they were created. *)

(** The index a property name stands for: the decimal numerals without a
    needless zero, up to [2^32 - 2]. *)
Definition array_index (k : jstring) : option Z :=
  match take_digits k with
  | (d :: more, []) =>
      if (d =? 0)%Z && negb (is_empty more) then None
      else if (decimal_value (d :: more) <=? 4294967294)%Z
           then Some (decimal_value (d :: more))
           else None
  | _ => None
  end.

(** Whether a new property [k] is enumerated before the property [k']. *)
Definition key_before (k k' : jstring) : bool :=
  match array_index k, array_index k' with
  | Some i, Some j => (i <? j)%Z
  | Some _, None => true
  | None, _ => false
  end.

Definition has_key (k : jstring) (o : list (jstring * JSON)) : bool :=
  existsb (fun kv => jstring_eqb k (fst kv)) o.

Fixpoint obj_replace (k : jstring) (v : JSON) (o : list (jstring * JSON))
    : list (jstring * JSON) :=
  match o with
  | [] => []
  | (k', v') :: o' =>
      if jstring_eqb k k' then (k, v) :: o' else (k', v') :: obj_replace k v o'
  end.

Fixpoint obj_insert (k : jstring) (v : JSON) (o : list (jstring * JSON))
    : list (jstring * JSON) :=
  match o with
  | [] => [(k, v)]
  | (k', v') :: o' =>
      if key_before k k' then (k, v) :: o else (k', v') :: obj_insert k v o'
  end.

(** Defining a property on an object: a name already present keeps its
    place and takes the new value, a new name takes its place in the
    order. *)
Definition obj_set (k : jstring) (v : JSON) (o : list (jstring * JSON))
    : list (jstring * JSON) :=
  if has_key k o then obj_replace k v o else obj_insert k v o.

Definition obj_of_members (ms : list (jstring * JSON)) : list (jstring * JSON) :=
  fold_left (fun o kv => obj_set (fst kv) (snd kv) o) ms [].

(** *** QuoteJSONString *)

Definition hex_unit (d : N) : N := (if d <? 10 then 48 + d else 87 + d)%N.

(** [UnicodeEscape]: a backslash, [u] and four hexadecimal digits in lower
    case. *)
Definition UnicodeEscape (c : N) : jstring :=
  [backslash; letter_u;
   hex_unit ((c / 4096) mod 16); hex_unit ((c / 256) mod 16);
   hex_unit ((c / 16) mod 16); hex_unit (c mod 16)]%N.

Definition is_leading_surrogate (c : N) : bool := ((55296 <=? c) && (c <=? 56319))%N.
Definition is_trailing_surrogate (c : N) : bool := ((56320 <=? c) && (c <=? 57343))%N.

(** A code unit that is no surrogate, as [JSON.stringify] writes it between
    the quotes: the two-character escapes of the language's table, a
    [UnicodeEscape] for the other control characters, the unit itself
    otherwise. *)
Definition quote_unit (c : N) : jstring :=
  if (c =? 8)%N then js "\b"
  else if (c =? 9)%N then js "\t"
  else if (c =? 10)%N then js "\n"
  else if (c =? 12)%N then js "\f"
  else if (c =? 13)%N then js "\r"
  else if (c =? dquote)%N then [backslash; dquote]
  else if (c =? backslash)%N then [backslash; backslash]
  else if (c <? space)%N then UnicodeEscape c
  else [c].

(** The code points of the string, one after the other: a leading surrogate
    with a trailing one after it is a pair and is written as it is, a
    surrogate on its own is escaped. *)
Fixpoint quote_units (s : jstring) : jstring :=
  match s with
  | [] => []
  | c :: s' =>
      if is_leading_surrogate c then
        match s' with
        | d :: s'' =>
            if is_trailing_surrogate d then c :: d :: quote_units s''
            else UnicodeEscape c ++ quote_units s'
        | [] => UnicodeEscape c
        end
      else if is_trailing_surrogate c then UnicodeEscape c ++ quote_units s'
      else quote_unit c ++ quote_units s'
  end.

Definition QuoteJSONString (s : jstring) : jstring :=
  dquote :: quote_units s ++ [dquote].

(** *** SerializeJSONProperty, SerializeJSONArray, SerializeJSONObject *)

Fixpoint join (sep : jstring) (parts : list jstring) : jstring :=
  match parts with
  | [] => []
  | [p] => p
  | p :: ps => p ++ sep ++ join sep ps
  end.

(** The common end of the array and object cases: [partial] are the
    serialized members, [indent] is the indentation of the members and
    [stepback] the one of the closing bracket. *)
Definition enclose (opening closing : N) (gap stepback indent : jstring)
    (partial : list jstring) : jstring :=
  if is_empty partial then [opening; closing]
  else if is_empty gap
       then opening :: join [comma] partial ++ [closing]
       else opening :: newline :: indent
              ++ join (comma :: newline :: indent) partial
              ++ newline :: stepback ++ [closing].

Definition member (gap : jstring) (key : jstring) (value : jstring) : jstring :=
  QuoteJSONString key ++ colon
    :: (if is_empty gap then value else space :: value).

(** A number that is not finite is written [null]. *)
Fixpoint SerializeJSONProperty (gap indent : jstring) (v : JSON) : jstring :=
  match v with
  | JNull => js "null"
  | JBool true => js "true"
  | JBool false => js "false"
  | JNumber x => if is_finite x then Number_toString x else js "null"
  | JString s => QuoteJSONString s
  | JArray items =>
      let stepback := indent in
      let indent := indent ++ gap in
      enclose lbracket rbracket gap stepback indent
        (map (SerializeJSONProperty gap indent) items)
  | JObject props =>
      let stepback := indent in
      let indent := indent ++ gap in
      enclose lbrace rbrace gap stepback indent
        (map (fun kv => member gap (fst kv)
                          (SerializeJSONProperty gap indent (snd kv))) props)
  end.

(** [JSON.stringify(value)]. *)
Definition JSON_stringify (v : JSON) : jstring :=
  SerializeJSONProperty [] [] v.

(** [JSON.stringify(value, null, space)] for a number [space]: the gap is
    [space] spaces, at most ten. *)
Definition JSON_stringify_space (v : JSON) (space : nat) : jstring :=
  SerializeJSONProperty (repeat Text.space (Nat.min space 10)) [] v.

(** *** JSON.parse

    The grammar of ECMA-404. The members of an object are defined on it one
    after the other, so that a name written twice keeps its last value and
    the names that are array indices come first. *)

Definition is_ws (c : N) : bool :=
  ((c =? 32) || (c =? 9) || (c =? 10) || (c =? 13))%N.

Fixpoint skip_ws (t : jstring) : jstring :=
  match t with
  | c :: t' => if is_ws c then skip_ws t' else t
  | [] => []
  end.

Fixpoint expect (lit t : jstring) : option jstring :=
  match lit, t with
  | [], _ => Some t
  | l :: lit', c :: t' => if (l =? c)%N then expect lit' t' else None
  | _ :: _, [] => None
  end.

Definition literal (lit : jstring) (v : JSON) (t : jstring) : option (JSON * jstring) :=
  match expect lit t with
  | Some r => Some (v, r)
  | None => None
  end.

Definition hex_value (c : N) : option N :=
  if ((48 <=? c) && (c <=? 57))%N then Some (c - 48)%N
  else if ((97 <=? c) && (c <=? 102))%N then Some (c - 87)%N
  else if ((65 <=? c) && (c <=? 70))%N then Some (c - 55)%N
  else None.

Definition hex4 (h1 h2 h3 h4 : N) : option N :=
  match hex_value h1, hex_value h2, hex_value h3, hex_value h4 with
  | Some a, Some b, Some c, Some d => Some (((a * 16 + b) * 16 + c) * 16 + d)%N
  | _, _, _, _ => None
  end.

(** The code unit an escape stands for, given the one after the
    backslash. *)
Definition unescape (e : N) : option N :=
  if (e =? dquote)%N then Some dquote
  else if (e =? backslash)%N then Some backslash
  else if (e =? slash)%N then Some slash
  else if (e =? code "b")%N then Some 8%N
  else if (e =? code "f")%N then Some 12%N
  else if (e =? code "n")%N then Some 10%N
  else if (e =? code "r")%N then Some 13%N
  else if (e =? code "t")%N then Some 9%N
  else None.

Definition prepend (c : N) (r : option (jstring * jstring)) : option (jstring * jstring) :=
  match r with
  | Some (s, rest) => Some (c :: s, rest)
  | None => None
  end.

(** The code units of a string literal, read after its opening quote. *)
Fixpoint parse_string_body (t : jstring) : option (jstring * jstring) :=
  match t with
  | [] => None
  | c :: t1 =>
      if (c =? dquote)%N then Some ([], t1)
      else if (c =? backslash)%N then
        match t1 with
        | [] => None
        | e :: t2 =>
            if (e =? letter_u)%N then
              match t2 with
              | h1 :: h2 :: h3 :: h4 :: t3 =>
                  match hex4 h1 h2 h3 h4 with
                  | Some unit => prepend unit (parse_string_body t3)
                  | None => None
                  end
              | _ => None
              end
            else
              match unescape e with
              | Some unit => prepend unit (parse_string_body t2)
              | None => None
              end
        end
      else if (c <? space)%N then None
      else prepend c (parse_string_body t1)
  end.

Definition lift {A B : Type} (f : A -> B) (r : option (A * jstring)) : option (B * jstring) :=
  match r with
  | Some (a, rest) => Some (f a, rest)
  | None => None
  end.

(** The text after the code unit [c], when the text starts with it. *)
Definition peek (c : N) (t : jstring) : option jstring :=
  match t with
  | x :: r => if (x =? c)%N then Some r else None
  | [] => None
  end.

(** Recursive descent; [fuel] bounds the number of nested calls and the
    length of the text is always enough. [parse_elements] reads the
    elements of an array after its bracket up to the closing one,
    [parse_members] the members of an object. *)
Fixpoint parse_value (fuel : nat) (t : jstring) : option (JSON * jstring) :=
  match fuel with
  | O => None
  | S fuel' =>
      match skip_ws t with
      | [] => None
      | c :: r =>
          if (c =? code "n")%N then literal (js "ull") JNull r
          else if (c =? code "t")%N then literal (js "rue") (JBool true) r
          else if (c =? code "f")%N then literal (js "alse") (JBool false) r
          else if (c =? dquote)%N then lift JString (parse_string_body r)
          else if (c =? lbracket)%N then
            match peek rbracket (skip_ws r) with
            | Some r' => Some (JArray [], r')
            | None => lift JArray (parse_elements fuel' r)
            end
          else if (c =? lbrace)%N then
            match peek rbrace (skip_ws r) with
            | Some r' => Some (JObject [], r')
            | None => lift (fun ms => JObject (obj_of_members ms)) (parse_members fuel' r)
            end
          else lift JNumber (parse_number (c :: r))
      end
  end
with parse_elements (fuel : nat) (t : jstring) : option (list JSON * jstring) :=
  match fuel with
  | O => None
  | S fuel' =>
      match parse_value fuel' t with
      | None => None
      | Some (v, r) =>
          match peek comma (skip_ws r) with
          | Some r' => lift (cons v) (parse_elements fuel' r')
          | None =>
              match peek rbracket (skip_ws r) with
              | Some r' => Some ([v], r')
              | None => None
              end
          end
      end
  end
with parse_members (fuel : nat) (t : jstring) : option (list (jstring * JSON) * jstring) :=
  match fuel with
  | O => None
  | S fuel' =>
      match peek dquote (skip_ws t) with
      | None => None
      | Some r =>
          match parse_string_body r with
          | None => None
          | Some (k, r1) =>
              match peek colon (skip_ws r1) with
              | None => None
              | Some r2 =>
                  match parse_value fuel' r2 with
                  | None => None
                  | Some (v, r3) =>
                      match peek comma (skip_ws r3) with
                      | Some r4 => lift (cons (k, v)) (parse_members fuel' r4)
                      | None =>
                          match peek rbrace (skip_ws r3) with
                          | Some r4 => Some ([(k, v)], r4)
                          | None => None
                          end
                      end
                  end
              end
          end
      end
  end.

(** [JSON.parse(text)]: [None] stands for the SyntaxError. *)
Definition JSON_parse (t : jstring) : option JSON :=
  match parse_value (S (length t)) t with
  | Some (v, r) => match skip_ws r with [] => Some v | _ => None end
  | None => None
  end.

(** *** Values of the language

    An object holds a property name once and enumerates its properties in
    the order given above; a number is one of binary64. [js_value] says so
    of every object and every number inside a value. *)

Fixpoint unique (ks : list jstring) : bool :=
  match ks with
  | [] => true
  | k :: ks' => negb (existsb (jstring_eqb k) ks') && unique ks'
  end.

(** No name is enumerated before a name that stands earlier in the list. *)
Fixpoint ordered (ks : list jstring) : bool :=
  match ks with
  | [] => true
  | k :: ks' => forallb (fun k' => negb (key_before k' k)) ks' && ordered ks'
  end.

Fixpoint js_value (v : JSON) : bool :=
  match v with
  | JNumber x => canonical x
  | JArray items => forallb js_value items
  | JObject props =>
      unique (map fst props) && ordered (map fst props)
      && forallb (fun kv => js_value (snd kv)) props
  | _ => true
  end.

(** The numbers JSON has a notation for: the finite ones, and of the two
    zeros the positive one. *)
Definition has_literal (x : Number) : bool :=
  match x with
  | Zero negative => negb negative
  | Finite _ _ _ => true
  | Infinite _ | NaN => false
  end.

Fixpoint json_numbers (v : JSON) : bool :=
  match v with
  | JNumber x => has_literal x
  | JArray items => forallb json_numbers items
  | JObject props => forallb (fun kv => json_numbers (snd kv)) props
  | _ => true
  end.

(** The number of nested calls the parser makes to read a value. *)
Fixpoint size (v : JSON) : nat :=
  match v with
  | JArray items => S (list_sum (map (fun x => S (size x)) items))
  | JObject props => S (list_sum (map (fun kv => S (size (snd kv))) props))
  | _ => 1
  end.

End Json.

(** ** The runtime: exceptions, console, Fetch API *)

Module Runtime.
Import Text Numbers Json.

(** A thrown value, as a [catch] clause can tell: an instance of [Error]
    with its [name] and [message], or any other value, given by the string
    [String(value)] makes of it. *)
Inductive Thrown : Type :=
| ErrorObject (name : string) (message : jstring)
| OtherValue (shown : jstring).

(** [error instanceof Error ? error.message : String(error)] *)
Definition error_text (error : Thrown) : jstring :=
  match error with
  | ErrorObject _ message => message
  | OtherValue shown => shown
  end.

Record HttpRequest : Type := {
  url : string;
  method : string;
  headers : list (string * string);
  body : jstring
}.

(** The body of a response as the network delivers it: the text of its
    bytes together with what [JSON.parse] makes of that text ([None] when it
    is not JSON), or a stream that fails while it is read. *)
Inductive Payload : Type :=
| Delivered (raw : jstring) (decoded : option JSON)
| Broken (failure : Thrown).

(** A response of the remote server; [payload] is [None] for a null body
    (as with status 204). *)
Record Response : Type := {
  status : Z;
  payload : option Payload
}.

(** [response.ok]: the status is in the range 200 to 299. *)
Definition ok (r : Response) : bool :=
  (200 <=? status r)%Z && (status r <=? 299)%Z.

(** What the program can observe and change: the lines written with
    [console.error], the requests sent with [fetch] so far, for every
    [Response] object created so far whether its body was read, and the
    remote side: what the [n]-th outbound call meets, a rejection or a
    response. *)
Record World : Type := {
  console : list jstring;
  outbound : list HttpRequest;
  bodyUsed : list bool;
  network : nat -> HttpRequest -> Thrown + Response
}.

(** A [Response] object: the response and the place of its [bodyUsed]
    flag. *)
Record ResponseObject : Type := {
  handle : nat;
  response : Response
}.

Inductive Completion (A : Type) : Type :=
| Normal (value : A)
| Throw (error : Thrown).
Arguments Normal {A} value.
Arguments Throw {A} error.

(** A computation: it changes the world and completes normally or
    abruptly. *)
Definition Run (A : Type) : Type := World -> Completion A * World.

Definition ret {A : Type} (a : A) : Run A := fun w => (Normal a, w).

Definition bind {A B : Type} (m : Run A) (k : A -> Run B) : Run B :=
  fun w =>
    match m w with
    | (Normal a, w') => k a w'
    | (Throw e, w') => (Throw e, w')
    end.

Definition throw {A : Type} (e : Thrown) : Run A := fun w => (Throw e, w).

(** [try { block } catch (e) { handler }]: the effects of the block stay. *)
Definition try_catch {A : Type} (block : Run A) (handler : Thrown -> Run A) : Run A :=
  fun w =>
    match block w with
    | (Normal a, w') => (Normal a, w')
    | (Throw e, w') => handler e w'
    end.

Declare Scope run_scope.
Delimit Scope run_scope with run.
Notation "x <- m ;; k" := (bind m (fun x => k))
  (at level 61, m at next level, right associativity) : run_scope.
Notation "m ;; k" := (bind m (fun _ => k))
  (at level 61, right associativity) : run_scope.

Definition console_error (line : jstring) : Run unit :=
  fun w =>
    (Normal tt,
     {| console := console w ++ [line]; outbound := outbound w;
        bodyUsed := bodyUsed w; network := network w |}).

(** [fetch(url, init)]: the request goes out; the promise is rejected or
    fulfilled with a new [Response] object. *)
Definition fetch (req : HttpRequest) : Run ResponseObject :=
  fun w =>
    let sent := outbound w ++ [req] in
    match network w (length (outbound w)) req with
    | inl e =>
        (Throw e,
         {| console := console w; outbound := sent;
            bodyUsed := bodyUsed w; network := network w |})
    | inr r =>
        (Normal {| handle := length (bodyUsed w); response := r |},
         {| console := console w; outbound := sent;
            bodyUsed := bodyUsed w ++ [false]; network := network w |})
    end.

Fixpoint set_used (h : nat) (flags : list bool) : list bool :=
  match flags, h with
  | [], _ => []
  | _ :: flags', O => true :: flags'
  | f :: flags', S h' => f :: set_used h' flags'
  end.

Definition disturb (h : nat) : Run unit :=
  fun w =>
    (Normal tt,
     {| console := console w; outbound := outbound w;
        bodyUsed := set_used h (bodyUsed w); network := network w |}).

Definition is_used (h : nat) : Run bool :=
  fun w => (Normal (nth h (bodyUsed w) false), w).

(** The TypeError of a second read of a body, with the text of workerd. *)
Definition body_used_error : Thrown :=
  ErrorObject "TypeError"
    (js "Body has already been used. It can only be used once. Use tee() first if you need to read it twice.").

(** The SyntaxError of [JSON.parse]; its text depends on the engine and
    on the input. *)
Definition syntax_error : Thrown :=
  ErrorObject "SyntaxError" (js "Unexpected token in JSON").

Local Open Scope run_scope.

(** The Fetch API's "consume body": a body can be read once; a null body
    reads as no bytes and is never used up. *)
Definition consume_body (r : ResponseObject) : Run (option Payload) :=
  match payload (response r) with
  | None => ret None
  | Some p =>
      used <- is_used (handle r) ;;
      if used then throw body_used_error
      else disturb (handle r) ;; ret (Some p)
  end.

(** [response.json()] *)
Definition Response_json (r : ResponseObject) : Run JSON :=
  p <- consume_body r ;;
  match p with
  | None => throw syntax_error
  | Some (Broken e) => throw e
  | Some (Delivered _ None) => throw syntax_error
  | Some (Delivered _ (Some v)) => ret v
  end.

(** [response.text()] *)
Definition Response_text (r : ResponseObject) : Run jstring :=
  p <- consume_body r ;;
  match p with
  | None => ret []
  | Some (Broken e) => throw e
  | Some (Delivered raw _) => ret raw
  end.

(** [s.startsWith(p)], for the path of a URL *)
Definition startsWith (s p : string) : bool := prefix p s.

(** [s.includes(p)] *)
Definition includes (s p : string) : bool :=
  match index 0 p s with Some _ => true | None => false end.

End Runtime.

(** ** The schema library and the tool registry

    What the program uses of zod and of the MCP SDK's [McpServer]. *)

Module Mcp.
Import Text Numbers Json Runtime.

Inductive ZodType : Type :=
| z_string
| z_any
| z_record (value : ZodType)
| z_optional (inner : ZodType)
| z_describe (inner : ZodType) (text : string).

(** Whether a schema accepts an input; [None] is [undefined], the value of
    a missing property. *)
Fixpoint accepts (t : ZodType) (input : option JSON) : bool :=
  match t with
  | z_string =>
      match input with Some (JString _) => true | _ => false end
  | z_any => true
  | z_record value =>
      match input with
      | Some (JObject props) => forallb (fun kv => accepts value (Some (snd kv))) props
      | _ => false
      end
  | z_optional inner =>
      match input with None => true | Some _ => accepts inner input end
  | z_describe inner _ => accepts inner input
  end.

Fixpoint lookup (k : jstring) (props : list (jstring * JSON)) : option JSON :=
  match props with
  | [] => None
  | (k', v) :: props' => if jstring_eqb k k' then Some v else lookup k props'
  end.

(** [z.object(shape)] on the arguments of a call: an object whose
    properties are accepted by the schemas of the shape. *)
Definition accepts_shape (shape : list (string * ZodType)) (args : JSON) : bool :=
  match args with
  | JObject props => forallb (fun f => accepts (snd f) (lookup (js (fst f)) props)) shape
  | _ => false
  end.

(** The value zod hands on for an accepted input. A record is built anew,
    key by key, and the key [__proto__] is left out. *)
Definition kept_key (kv : jstring * JSON) : bool :=
  negb (jstring_eqb (fst kv) (js "__proto__")).

Fixpoint parsed (t : ZodType) (input : JSON) : JSON :=
  match t with
  | z_record value =>
      match input with
      | JObject props =>
          JObject (obj_of_members
                     (map (fun kv => (fst kv, parsed value (snd kv)))
                        (filter kept_key props)))
      | _ => input
      end
  | z_optional inner => parsed inner input
  | z_describe inner _ => parsed inner input
  | z_string | z_any => input
  end.

(** The object [z.object(shape)] hands on: the properties of the shape that
    are there, in the order of the shape; the others are dropped. *)
Definition parsed_shape (shape : list (string * ZodType))
    (props : list (jstring * JSON)) : list (jstring * JSON) :=
  obj_of_members
    (flat_map (fun f =>
                 match lookup (js (fst f)) props with
                 | Some v => [(js (fst f), parsed (snd f) v)]
                 | None => []
                 end) shape).

(** The issues zod reports for an input that is not accepted, as the
    message of its error lists them. *)
Definition received (input : option JSON) : string :=
  match input with
  | None => "undefined"
  | Some JNull => "null"
  | Some (JBool _) => "boolean"
  | Some (JNumber NaN) => "nan"
  | Some (JNumber _) => "number"
  | Some (JString _) => "string"
  | Some (JArray _) => "array"
  | Some (JObject _) => "object"
  end.

Definition invalid_type (expected : string) (input : option JSON)
    (path : list jstring) : JSON :=
  JObject [(js "code", JString (js "invalid_type"));
           (js "expected", JString (js expected));
           (js "received", JString (js (received input)));
           (js "path", JArray (map JString path));
           (js "message",
            JString (match input with
                     | None => js "Required"
                     | Some _ => js "Expected " ++ js expected
                                   ++ js ", received " ++ js (received input)
                     end))].

Fixpoint issues (t : ZodType) (path : list jstring) (input : option JSON)
    : list JSON :=
  match t with
  | z_string =>
      match input with
      | Some (JString _) => []
      | _ => [invalid_type "string" input path]
      end
  | z_any => []
  | z_record value =>
      match input with
      | Some (JObject props) =>
          flat_map (fun kv => issues value (path ++ [fst kv]) (Some (snd kv))) props
      | _ => [invalid_type "object" input path]
      end
  | z_optional inner =>
      match input with None => [] | Some _ => issues inner path input end
  | z_describe inner _ => issues inner path input
  end.

Definition shape_issues (shape : list (string * ZodType)) (args : JSON) : list JSON :=
  match args with
  | JObject props =>
      flat_map (fun f => issues (snd f) [js (fst f)] (lookup (js (fst f)) props)) shape
  | _ => [invalid_type "object" (Some args) []]
  end.

(** [ZodError.message] *)
Definition ZodError_message (shape : list (string * ZodType)) (args : JSON) : jstring :=
  JSON_stringify_space (JArray (shape_issues shape args)) 2.

Record ContentBlock : Type := {
  type : string;
  text : jstring
}.

(** The result of a call; [isError] is [None] where the property is
    absent. *)
Record CallToolResult : Type := {
  content : list ContentBlock;
  isError : option bool
}.

Record Tool : Type := {
  name : string;
  description : string;
  paramsSchema : list (string * ZodType);
  cb : list (jstring * JSON) -> Run CallToolResult
}.

(** The registry of an [McpServer]. *)
Definition McpServer : Type := list Tool.

Definition find_tool (server : McpServer) (n : string) : option Tool :=
  find (fun t => String.eqb (name t) n) server.

(** [new McpError(code, message)] *)
Definition McpError (code : Z) (message : jstring) : Thrown :=
  ErrorObject "McpError"
    (js "MCP error " ++ Number_toString (of_Z code) ++ js ": " ++ message).

Definition InvalidParams : Z := -32602.

(** [server.tool(name, description, paramsSchema, cb)] *)
Definition server_tool (server : McpServer) (n d : string)
    (schema : list (string * ZodType))
    (callback : list (jstring * JSON) -> Run CallToolResult) : Run McpServer :=
  match find_tool server n with
  | Some _ =>
      throw (ErrorObject "Error" (js "Tool " ++ js n ++ js " is already registered"))
  | None =>
      ret (server ++ [{| name := n; description := d;
                         paramsSchema := schema; cb := callback |}])
  end.

(** A [tools/call] request as the server handles it: the tool is looked
    up, the arguments are checked against its schema and its callback runs
    on what the schema hands on; what the callback throws is caught and
    reported in the result. *)
Definition callTool (server : McpServer) (n : string) (args : JSON)
    : Run CallToolResult :=
  match find_tool server n with
  | None => throw (McpError InvalidParams (js "Tool " ++ js n ++ js " not found"))
  | Some t =>
      let refusal :=
        McpError InvalidParams
          (js "Invalid arguments for tool " ++ js n ++ js ": "
             ++ ZodError_message (paramsSchema t) args) in
      if accepts_shape (paramsSchema t) args
      then match args with
           | JObject props =>
               try_catch (cb t (parsed_shape (paramsSchema t) props))
                 (fun error =>
                    ret {| content := [{| type := "text";
                                          text := error_text error |}];
                           isError := Some true |})
           | _ => throw refusal
           end
      else throw refusal
  end.

End Mcp.

(** ** [class OpenNeuroMCP] *)

Module OpenNeuroMCP.
Import Text Numbers Json Runtime Mcp.
Local Open Scope run_scope.

Definition nl : string := String "010" EmptyString.
Definition dq : string := String "034" EmptyString.

Definition OPENNEURO_GRAPHQL_ENDPOINT : string := "https://openneuro.org/crn/graphql".

Definition request_headers : list (string * string) :=
  [("Content-Type", "application/json");
   ("User-Agent",
    "MCPOpenNeuroServer/0.1.0 (ModelContextProtocol; +https://modelcontextprotocol.io)")].

(** [bodyData]: [{ query }], and [variables] when they are given. *)
Definition bodyData (query : jstring) (variables : option (list (jstring * JSON)))
    : list (jstring * JSON) :=
  let bodyData := [(js "query", JString query)] in
  match variables with
  | Some vars => obj_set (js "variables") (JObject vars) bodyData
  | None => bodyData
  end.

Definition graphql_request (query : jstring)
    (variables : option (list (jstring * JSON))) : HttpRequest :=
  {| url := OPENNEURO_GRAPHQL_ENDPOINT;
     method := "POST";
     headers := request_headers;
     body := JSON_stringify (JObject (bodyData query variables)) |}.

(** The three objects the relay builds. *)
Definition non_json_envelope (status : Z) (errorText : jstring) : JSON :=
  JObject [(js "errors", JArray [JObject [
    (js "message", JString (js "OpenNeuro API Error "
                              ++ Number_toString (of_Z status)
                              ++ js ": Non-JSON response."));
    (js "extensions", JObject [
       (js "statusCode", JNumber (of_Z status));
       (js "responseText", JString (slice0 1000 errorText))])]])].

Definition http_error_envelope (status : Z) (responseBody : JSON) : JSON :=
  JObject [(js "errors", JArray [JObject [
    (js "message", JString (js "OpenNeuro API HTTP Error "
                              ++ Number_toString (of_Z status)));
    (js "extensions", JObject [
       (js "statusCode", JNumber (of_Z status));
       (js "responseBody", responseBody)])]])].

Definition client_error_envelope (errorMessage : jstring) : JSON :=
  JObject [(js "errors", JArray [JObject [
    (js "message", JString errorMessage);
    (js "extensions", JObject [(js "clientError", JBool true)])]])].

(** [executeOpenNeuroGraphQLQuery(query, variables)]. The inner [try]
    yields [inl responseBody] when the body was decoded and [inr result]
    when its handler returns [result] from the function. *)
Definition executeOpenNeuroGraphQLQuery (query : jstring)
    (variables : option (list (jstring * JSON))) : Run JSON :=
  try_catch
    (console_error (js "Making GraphQL request to: " ++ js OPENNEURO_GRAPHQL_ENDPOINT) ;;
     response <- fetch (graphql_request query variables) ;;
     let status := status (Runtime.response response) in
     console_error (js "OpenNeuro API response status: "
                      ++ Number_toString (of_Z status)) ;;
     decoded <-
       try_catch
         (responseBody <- Response_json response ;; ret (inl responseBody))
         (fun e =>
            errorText <- Response_text response ;;
            console_error (js "OpenNeuro API response is not JSON. Status: "
                             ++ Number_toString (of_Z status) ++ js ", Body: "
                             ++ slice0 500 errorText) ;;
            ret (inr (non_json_envelope status errorText))) ;;
     match decoded with
     | inr result => ret result
     | inl responseBody =>
         if negb (ok (Runtime.response response)) then
           console_error (js "OpenNeuro API HTTP Error "
                            ++ Number_toString (of_Z status)
                            ++ js ": " ++ JSON_stringify responseBody) ;;
           ret (http_error_envelope status responseBody)
         else ret responseBody
     end)
    (fun error =>
       console_error (js "Client-side error during OpenNeuro GraphQL request: "
                        ++ error_text error) ;;
       let errorMessage :=
         js "An unexpected client-side error occurred while attempting to query the OpenNeuro GraphQL API." in
       let errorMessage :=
         match error with
         | ErrorObject _ message => message
         | OtherValue shown => shown
         end in
       ret (client_error_envelope errorMessage)).

Definition tool_name : string := "openneuro_graphql_query".

Definition tool_description : string :=
  "Executes GraphQL queries against OpenNeuro API (https://openneuro.org/crn/graphql) for neuroimaging datasets (MRI, MEG, EEG). " ++ nl ++
  "Query dataset info, snapshot details, file listings, etc. " ++ nl ++
  "Example (dataset): '{ dataset(id: " ++ dq ++ "ds000224" ++ dq ++ ") { id name } }'. " ++ nl ++
  "Example (snapshot files): '{ snapshot(datasetId: " ++ dq ++ "ds000001" ++ dq ++ ", tag: " ++ dq ++ "1.0.0" ++ dq ++ ") { files { filename size } } }'. " ++ nl ++
  "For directory contents, use 'tree' arg with dir ID. " ++ nl ++
  "IMPORTANT: Before any data query/mutation, ALWAYS run introspection queries (e.g., '{ __schema { queryType { name } types { name fields { name } } } }') to confirm all target fields/operations are in the schema. This prevents errors from schema changes. " ++ nl ++
  "If a query fails, re-check syntax & re-introspect. Refer to API docs (schema at endpoint) for details.".

Definition tool_schema : list (string * ZodType) :=
  [("query",
    z_describe z_string
      ("The GraphQL query string to execute against the OpenNeuro GraphQL API (https://openneuro.org/crn/graphql). " ++
       "Example: '{ dataset(id: " ++ dq ++ "ds000224" ++ dq ++ ") { id name } }'. " ++
       "Use introspection queries like '{ __schema { queryType { name } types { name kind } } }' to discover the schema. "));
   ("variables",
    z_describe (z_optional (z_record z_any))
      ("Optional dictionary of variables for the GraphQL query. Example: { " ++ dq ++ "datasetId" ++ dq ++ ": " ++ dq ++ "ds000224" ++ dq ++ " }"))].

(** The properties [query] and [variables] of the object the callback is
    called on, [{ query, variables }: { query: string; variables?:
    Record<string, any> }]. *)
Definition arg_query (props : list (jstring * JSON)) : option jstring :=
  match lookup (js "query") props with
  | Some (JString q) => Some q
  | _ => None
  end.

Definition arg_variables (props : list (jstring * JSON))
    : option (list (jstring * JSON)) :=
  match lookup (js "variables") props with
  | Some (JObject vars) => Some vars
  | _ => None
  end.

(** The TypeError of [query.slice] when there is no [query]. *)
Definition no_query_error : Thrown :=
  ErrorObject "TypeError"
    (js "Cannot read properties of undefined (reading 'slice')").

(** The body of the callback of the tool, on a string [query]. *)
Definition tool_callback (query : jstring)
    (variables : option (list (jstring * JSON))) : Run CallToolResult :=
  console_error (js "Executing openneuro_graphql_query with query: "
                   ++ slice0 200 query ++ js "...") ;;
  match variables with
  | Some vars =>
      console_error (js "With variables: "
                       ++ slice0 150 (JSON_stringify (JObject vars)) ++ js "...")
  | None => ret tt
  end ;;
  result <- executeOpenNeuroGraphQLQuery query variables ;;
  ret {| content := [{| type := "text";
                        text := JSON_stringify_space result 2 |}];
         isError := None |}.

(** [init()]. The server calls the callback on checked arguments, where
    [query] is a string; without one, the first use of [query] fails. *)
Definition init (server : McpServer) : Run McpServer :=
  console_error (js "OpenNeuro MCP Server initialized.") ;;
  server_tool server tool_name tool_description tool_schema
    (fun props =>
       match arg_query props with
       | Some query => tool_callback query (arg_variables props)
       | None => throw no_query_error
       end).

End OpenNeuroMCP.

(** ** The worker's [fetch] handler *)

Module Worker.
Import Text Runtime.
Local Open Scope run_scope.

(** The inbound request, as far as the handler looks at it:
    [new URL(request.url).pathname], which is ASCII. *)
Record Request : Type := {
  pathname : string
}.

(** [new Response(body, { status, headers })] *)
Record Reply : Type := {
  status : Z;
  headers : list (string * string);
  body : string
}.

Definition not_found_body : string :=
  "OpenNeuro MCP Server - Path not found." ++ OpenNeuroMCP.nl ++
  "Available MCP paths:" ++ OpenNeuroMCP.nl ++
  "- /sse (for Server-Sent Events transport)".

(** [fetch(request, env, ctx)]; [serveSSE] is [OpenNeuroMCP.serveSSE] of the
    agent framework: from a mount path, the handler of the SSE transport. *)
Definition fetch (serveSSE : string -> Request -> Run Reply) (request : Request)
    : Run Reply :=
  let url_pathname := pathname request in
  if String.eqb url_pathname "/sse" || startsWith url_pathname "/sse/" then
    serveSSE "/sse" request
  else
    console_error (js ("OpenNeuro MCP Server. Requested path " ++ url_pathname
                       ++ " not found. Listening for SSE on /sse.")) ;;
    ret {| status := 404;
           headers := [("Content-Type", "text/plain")];
           body := not_found_body |}.

End Worker.

(** ** Notions for the statements about texts *)

Module TextNotions.
Import Text Numbers Json.

(** White space only. *)
Definition blank (t : jstring) : Prop := Forall (fun c => is_ws c = true) t.

(** What may follow a value inside a text: nothing, white space, a comma or
    a closing bracket. *)
Definition ends_value (t : jstring) : bool :=
  match t with
  | [] => true
  | c :: _ =>
      is_ws c || (c =? comma)%N || (c =? rbracket)%N || (c =? rbrace)%N
  end.

(** The first code unit of a serialized value. *)
Definition starts_value (t : jstring) : bool :=
  match t with
  | [] => false
  | c :: _ =>
      negb (is_ws c) && negb (c =? rbracket)%N
      && negb (c =? rbrace)%N && negb (c =? comma)%N
  end.

Definition is_digit (d : Z) : Prop := (0 <= d <= 9)%Z.

(** No digit at the head. *)
Definition no_digit (t : jstring) : Prop :=
  match t with
  | [] => True
  | c :: _ => digit_value c = None
  end.

(** Nothing at the head that goes on a number literal. *)
Definition number_end (t : jstring) : Prop :=
  match t with
  | [] => True
  | c :: _ =>
      digit_value c = None /\ c <> dot /\ c <> letter_e /\ c <> letter_E
  end.

(** The first code unit of a number literal. *)
Definition number_start (c : N) : Prop :=
  c = minus \/ exists d, is_digit d /\ c = digit_unit d.

(** The number with another sign. *)
Definition with_sign (negative : bool) (x : Number) : Number :=
  match x with
  | Zero _ => Zero negative
  | Finite _ m e => Finite negative m e
  | Infinite _ => Infinite negative
  | NaN => NaN
  end.

(** The names of an object after a new name has taken its place. *)
Fixpoint insert_key (k : jstring) (ks : list jstring) : list jstring :=
  match ks with
  | [] => [k]
  | k' :: ks' => if key_before k k' then k :: ks else k' :: insert_key k ks'
  end.

(** What the serializer writes between the colon and the value of a
    member. *)
Definition colon_gap (gap : jstring) : jstring :=
  if is_empty gap then [] else [space].

(** What is left of a value in its JSON text: a number that is not finite
    is written [null] and negative zero is written [0]. *)
Definition written_number (x : Number) : JSON :=
  match x with
  | Zero _ => JNumber (Zero false)
  | Finite _ _ _ => JNumber x
  | Infinite _ | NaN => JNull
  end.

Fixpoint written (v : JSON) : JSON :=
  match v with
  | JNumber x => written_number x
  | JArray items => JArray (map written items)
  | JObject props => JObject (map (fun kv => (fst kv, written (snd kv))) props)
  | _ => v
  end.

(** The parser reads what the serializer wrote, whatever follows. *)
Definition reads_back (gap : jstring) (v : JSON) : Prop :=
  forall indent rest fuel,
    blank indent -> size v <= fuel -> ends_value rest = true ->
    parse_value fuel (SerializeJSONProperty gap indent v ++ rest)
    = Some (written v, rest).

End TextNotions.


(** ** Notions for the statements about the relay *)

Module Notions.
Import Text Numbers Json Runtime Mcp OpenNeuroMCP.

(** What the relay makes of the outcome of its outbound call. *)
Definition relayed (o : Thrown + Response) : JSON :=
  match o with
  | inl e => client_error_envelope (error_text e)
  | inr r =>
      match payload r with
      | None => non_json_envelope (status r) []
      | Some (Delivered _ (Some v)) =>
          if ok r then v else http_error_envelope (status r) v
      | Some _ => client_error_envelope (error_text body_used_error)
      end
  end.

(** The result of the tool's callback for a result of the relay. *)
Definition text_block (result : JSON) : CallToolResult :=
  {| content := [{| type := "text"; text := JSON_stringify_space result 2 |}];
     isError := None |}.

(** The tool [init] registers. *)
Definition registered_tool : Tool :=
  {| name := tool_name;
     description := tool_description;
     paramsSchema := tool_schema;
     cb := fun props =>
             match arg_query props with
             | Some query => tool_callback query (arg_variables props)
             | None => throw no_query_error
             end |}.

(** Worlds for the concrete instances: nothing has happened yet and every
    outbound call meets the same outcome. *)
Definition fresh_world (o : Thrown + Response) : World :=
  {| console := []; outbound := []; bodyUsed := []; network := fun _ _ => o |}.

Definition dataset_query : jstring :=
  js ("{ dataset(id: " ++ dq ++ "ds000224" ++ dq ++ ") { id name } }").

(** A success with a GraphQL-level [errors] array beside the data. *)
Definition partial_success_body : JSON :=
  JObject [(js "data",
            JObject [(js "dataset", JObject [(js "id", JString (js "ds000224"))])]);
           (js "errors", JArray [JObject [
              (js "message", JString (js "Cannot query field"));
              (js "path", JArray [JString (js "dataset"); JNumber (of_Z 0)])]])].

Definition partial_success_response : Response :=
  {| status := 200;
     payload := Some (Delivered (JSON_stringify partial_success_body)
                        (Some partial_success_body)) |}.

Definition html_error_response : Response :=
  {| status := 200;
     payload := Some (Delivered (js "<html>Error</html>")
                        (JSON_parse (js "<html>Error</html>"))) |}.

Definition internal_error_body : JSON :=
  JObject [(js "message", JString (js "internal"))].

Definition internal_error_response : Response :=
  {| status := 500;
     payload := Some (Delivered (JSON_stringify internal_error_body)
                        (Some internal_error_body)) |}.

(** A success whose body holds a number above the range of binary64:
    [{"x":1e400}]. *)
Definition overflowing_text : jstring :=
  js ("{" ++ dq ++ "x" ++ dq ++ ":1e400}").

Definition overflowing_response : Response :=
  {| status := 200;
     payload := Some (Delivered overflowing_text (JSON_parse overflowing_text)) |}.

(** A response without a body, and variables for the dataset query. *)
Definition no_content_response : Response :=
  {| status := 204; payload := None |}.

Definition dataset_variables : list (jstring * JSON) :=
  [(js "datasetId", JString (js "ds000224"));
   (js "tags", JArray [JString (js "1.0.0"); JNull]);
   (js "first", JNumber (of_Z 10))].

(** Arguments of a call with a property the schema does not name. *)
Definition dataset_arguments : list (jstring * JSON) :=
  [(js "operationName", JString (js "Dataset"));
   (js "query", JString dataset_query);
   (js "variables", JObject dataset_variables)].

(** Running the relay on a world given by its fields. *)
Ltac run :=
  cbv [executeOpenNeuroGraphQLQuery try_catch bind ret throw fetch console_error
       console outbound bodyUsed network handle response].

End Notions.
(** ** Facts about numbers *)

Module NumberFacts.
Import Text Numbers Json TextNotions.
Local Open Scope Z_scope.

Lemma Number_eqb_eq x y : Number_eqb x y = true -> x = y.
Proof.
  destruct x as [a|a m e|a|], y as [b|b m' e'|b|]; cbn; try discriminate;
    try reflexivity.
  - intros H. apply Bool.eqb_prop in H. congruence.
  - intros H. apply andb_true_iff in H as [H He].
    apply andb_true_iff in H as [Hs Hm].
    apply Bool.eqb_prop in Hs. apply Pos.eqb_eq in Hm. apply Z.eqb_eq in He.
    congruence.
  - intros H. apply Bool.eqb_prop in H. congruence.
Qed.

Lemma canonical_bounds neg m e :
  canonical (Finite neg m e) = true ->
  Zpos m < 2 ^ 53 /\ -1074 <= e <= 971 /\ (2 ^ 52 <= Zpos m \/ e = -1074).
Proof.
  unfold canonical. intros H.
  apply andb_true_iff in H as [H H4]. apply andb_true_iff in H as [H H3].
  apply andb_true_iff in H as [H1 H2].
  apply Z.ltb_lt in H1. apply Z.leb_le in H2. apply Z.leb_le in H3.
  apply orb_true_iff in H4 as [H4|H4];
    [apply Z.leb_le in H4 | apply Z.eqb_eq in H4]; auto.
Qed.

(** The exponent of the mantissa is recovered from the size of the scaled
    value. *)
Lemma exponent_recovered neg m e :
  canonical (Finite neg m e) = true ->
  Z.max 0 (Z.log2 (Zpos m * 2 ^ (e + 1074)) - 52) = e + 1074.
Proof.
  intros H. apply canonical_bounds in H as (Hm & He & Hn).
  rewrite Z.log2_mul_pow2 by lia.
  destruct Hn as [Hn|Hn].
  - assert (Z.log2 (Zpos m) = 52) as ->.
    { apply Z.log2_unique; [lia|]. split; [exact Hn | exact Hm]. }
    lia.
  - subst e. change (-1074 + 1074) with 0.
    assert (Z.log2 (Zpos m) <= 52).
    { destruct (Z.log2_spec (Zpos m)) as [Hlo _]; [lia|].
      destruct (Z.le_gt_cases (Z.log2 (Zpos m)) 52) as [Hle|Hgt]; [exact Hle|].
      exfalso. assert (2 ^ 53 <= 2 ^ Z.log2 (Zpos m))
        by (apply Z.pow_le_mono_r; lia). lia. }
    lia.
Qed.

Lemma nearest_even_exact m b : 0 < b -> nearest_even (m * b) b = m.
Proof.
  intros Hb. unfold nearest_even.
  rewrite Z.div_mul, Z.mod_mul by lia.
  destruct (Z.ltb_spec (2 * 0) b); [reflexivity | lia].
Qed.

(** A ratio that is a binary64 value is rounded to that value. *)
Lemma round_ratio_exact neg m e p q :
  canonical (Finite neg m e) = true ->
  0 < q ->
  p * 2 ^ 1074 = Zpos m * 2 ^ (e + 1074) * q ->
  round_ratio neg p q = Finite neg m e.
Proof.
  intros Hc Hq Hp.
  pose proof (exponent_recovered neg m e Hc) as Hk.
  apply canonical_bounds in Hc as (Hm & He & _).
  unfold round_ratio. rewrite Hp.
  rewrite Z.div_mul by lia. rewrite Hk.
  replace (Zpos m * 2 ^ (e + 1074) * q) with (Zpos m * (q * 2 ^ (e + 1074)))
    by ring.
  rewrite nearest_even_exact
    by (apply Z.mul_pos_pos; [exact Hq | apply Z.pow_pos_nonneg; lia]).
  destruct (Z.eqb_spec (Zpos m) (2 ^ 53)) as [Heq|_]; [lia|].
  destruct (Z.ltb_spec 2045 (e + 1074)); [lia|].
  f_equal. lia.
Qed.

Lemma exact_decimal_reads neg m e :
  canonical (Finite neg m e) = true ->
  round_decimal neg (fst (exact_decimal m e)) (snd (exact_decimal m e))
  = Finite neg m e.
Proof.
  intros Hc. pose proof (canonical_bounds _ _ _ Hc) as (_ & He & _).
  unfold exact_decimal, round_decimal.
  destruct (Z.leb_spec 0 e) as [Hpos|Hneg]; cbn [fst snd].
  - change (0 <=? 0) with true. cbv iota.
    apply round_ratio_exact; [exact Hc | lia |].
    rewrite Z.pow_0_r, Z.pow_add_r by lia. ring.
  - destruct (Z.leb_spec 0 e); [lia|].
    apply round_ratio_exact; [exact Hc | apply Z.pow_pos_nonneg; lia |].
    replace 10 with (2 * 5) by reflexivity. rewrite Z.pow_mul_l.
    replace (2 ^ 1074) with (2 ^ (e + 1074) * 2 ^ (- e))
      by (rewrite <- Z.pow_add_r by lia; f_equal; lia).
    ring.
Qed.

Lemma exact_decimal_positive m e : 0 < fst (exact_decimal m e).
Proof.
  unfold exact_decimal. destruct (0 <=? e) eqn:He; cbn [fst].
  - apply Z.leb_le in He. apply Z.mul_pos_pos; [lia | apply Z.pow_pos_nonneg; lia].
  - apply Z.leb_gt in He. apply Z.mul_pos_pos; [lia | apply Z.pow_pos_nonneg; lia].
Qed.

Lemma search_reads x P Q L ks c :
  search x P Q L ks = Some c -> reads_as x c = true.
Proof.
  induction ks as [|k ks IH]; cbn [search]; [discriminate|].
  destruct (find _ _) as [c'|] eqn:Hf.
  - intros H. injection H as <-. apply find_some in Hf. apply Hf.
  - exact IH.
Qed.

Lemma shortest_positive m e : 0 < fst (shortest m e).
Proof.
  unfold shortest.
  destruct (if 0 <=? e then _ else _) as [P Q].
  destruct (search _ P Q _ _) as [c|] eqn:Hs.
  - apply search_reads in Hs. unfold reads_as in Hs.
    apply andb_true_iff in Hs as [Hpos _]. apply Z.ltb_lt in Hpos. exact Hpos.
  - apply exact_decimal_positive.
Qed.

(** The digits chosen for a number read back as that number. *)
Lemma shortest_reads m e :
  canonical (Finite false m e) = true ->
  round_decimal false (fst (shortest m e)) (snd (shortest m e))
  = Finite false m e.
Proof.
  intros Hc. unfold shortest.
  destruct (if 0 <=? e then _ else _) as [P Q].
  destruct (search _ P Q _ _) as [c|] eqn:Hs.
  - apply search_reads in Hs. unfold reads_as in Hs.
    apply andb_true_iff in Hs as [_ Heq].
    apply Number_eqb_eq in Heq. exact Heq.
  - apply exact_decimal_reads. exact Hc.
Qed.

(** The sign of a literal goes to the sign of its value and nowhere else. *)
Lemma round_ratio_sign negative p q :
  round_ratio negative p q = with_sign negative (round_ratio false p q).
Proof.
  unfold round_ratio. cbv zeta.
  destruct (nearest_even _ _ =? 2 ^ 53).
  - destruct (2 ^ 52); try reflexivity. destruct (2045 <? _); reflexivity.
  - destruct (nearest_even _ _); try reflexivity.
    destruct (2045 <? _); reflexivity.
Qed.

Lemma round_decimal_sign negative s t :
  round_decimal negative s t = with_sign negative (round_decimal false s t).
Proof.
  unfold round_decimal. destruct (0 <=? t); apply round_ratio_sign.
Qed.

(** Rounding yields a number of binary64. *)
Lemma nearest_even_bounds a b :
  a / b <= nearest_even a b <= a / b + 1.
Proof.
  unfold nearest_even.
  destruct (2 * (a mod b) <? b); [lia|].
  destruct (b <? 2 * (a mod b)); [lia|].
  destruct (Z.even (a / b)); lia.
Qed.

Lemma round_ratio_canonical negative p q :
  0 <= p -> 0 < q -> canonical (round_ratio negative p q) = true.
Proof.
  intros Hp Hq. unfold round_ratio. cbv zeta.
  set (a := p * 2 ^ 1074).
  set (x := a / q).
  set (k := Z.max 0 (Z.log2 x - 52)).
  assert (Ha : 0 <= a) by (apply Z.mul_nonneg_nonneg; [exact Hp | apply Z.pow_nonneg; lia]).
  assert (Hx : 0 <= x) by (apply Z.div_pos; assumption).
  assert (Hk : 0 <= k) by lia.
  assert (Hpk : 0 < 2 ^ k) by (apply Z.pow_pos_nonneg; lia).
  pose proof (nearest_even_bounds a (q * 2 ^ k)) as Hm.
  assert (Hy : a / (q * 2 ^ k) = x / 2 ^ k)
    by (unfold x; rewrite Z.div_div by lia; reflexivity).
  rewrite Hy in Hm.
  assert (E52 : 2 ^ 52 = 4503599627370496) by reflexivity.
  assert (E53 : 2 ^ 53 = 9007199254740992) by reflexivity.
  assert (Hrange : (k = 0 /\ 0 <= nearest_even a (q * 2 ^ k) <= 2 ^ 52)
                   \/ 2 ^ 52 <= nearest_even a (q * 2 ^ k) <= 2 ^ 53).
  { destruct (Z.le_gt_cases 52 (Z.log2 x)) as [Hbig|Hsmall].
    - right.
      assert (Hxpos : 0 < x).
      { destruct (Z.eq_dec x 0) as [E|E]; [rewrite E in Hbig; cbn in Hbig; lia | lia]. }
      destruct (Z.log2_spec x Hxpos) as [Hlo Hhi].
      assert (Ek : Z.log2 x = 52 + k) by lia.
      rewrite Ek in Hlo. replace (Z.succ (Z.log2 x)) with (53 + k) in Hhi by lia.
      rewrite Z.pow_add_r in Hlo, Hhi by lia.
      assert (2 ^ 52 <= x / 2 ^ k) by (apply Z.div_le_lower_bound; lia).
      assert (x / 2 ^ k < 2 ^ 53) by (apply Z.div_lt_upper_bound; lia).
      lia.
    - left. assert (Ek : k = 0) by lia. split; [exact Ek|].
      assert (Hd : x / 2 ^ k = x)
        by (rewrite Ek; change (2 ^ 0) with 1; apply Z.div_1_r).
      assert (x < 2 ^ 52).
      { destruct (Z.eq_dec x 0) as [E|E]; [rewrite E; lia|].
        destruct (Z.log2_spec x ltac:(lia)) as [_ Hhi].
        assert (2 ^ Z.succ (Z.log2 x) <= 2 ^ 52) by (apply Z.pow_le_mono_r; lia).
        lia. }
      lia. }
  clear Hm Hy.
  assert (Hcan : forall m' e,
             (e = -1074 /\ Zpos m' <= 2 ^ 52 \/ 2 ^ 52 <= Zpos m' < 2 ^ 53) ->
             -1074 <= e <= 971 ->
             canonical (Finite negative m' e) = true).
  { intros m' e Hm' He. unfold canonical.
    rewrite !andb_true_iff, orb_true_iff, Z.ltb_lt, !Z.leb_le, Z.eqb_eq. lia. }
  destruct (Z.eqb_spec (nearest_even a (q * 2 ^ k)) (2 ^ 53)) as [Heq|Hne].
  - rewrite E52. destruct (Z.ltb_spec 2045 (k + 1)); [reflexivity|].
    apply Hcan; lia.
  - destruct (nearest_even a (q * 2 ^ k)) as [|m'|m'] eqn:Em; try reflexivity.
    destruct (Z.ltb_spec 2045 k); [reflexivity|].
    apply Hcan; lia.
Qed.

Lemma round_decimal_canonical negative s t :
  0 <= s -> canonical (round_decimal negative s t) = true.
Proof.
  intros Hs. unfold round_decimal. destruct (Z.leb_spec 0 t).
  - apply round_ratio_canonical; [|lia].
    apply Z.mul_nonneg_nonneg; [exact Hs | apply Z.pow_nonneg; lia].
  - apply round_ratio_canonical; [exact Hs|].
    apply Z.pow_pos_nonneg; lia.
Qed.

Lemma canonical_of_Z z : canonical (of_Z z) = true.
Proof. apply round_ratio_canonical; lia. Qed.

(** *** Digits *)

Lemma digit_value_unit d : is_digit d -> digit_value (digit_unit d) = Some d.
Proof.
  unfold is_digit, digit_value, digit_unit, digit0, digit9. intros H.
  destruct (N.leb_spec 48 (Z.to_N (48 + d)));
    destruct (N.leb_spec (Z.to_N (48 + d)) 57); cbn [andb]; try lia.
  f_equal. lia.
Qed.

Lemma digit_unit_not_minus d : is_digit d -> (digit_unit d =? minus)%N = false.
Proof.
  unfold is_digit, digit_unit, minus. intros H. apply N.eqb_neq. lia.
Qed.

Lemma take_digits_units ds rest :
  Forall is_digit ds -> no_digit rest ->
  take_digits (map digit_unit ds ++ rest) = (ds, rest).
Proof.
  intros Hds Hrest. induction Hds as [|d ds Hd _ IH]; cbn [map app].
  - destruct rest as [|c rest]; [reflexivity|]. cbn in Hrest |- *.
    rewrite Hrest. reflexivity.
  - cbn [take_digits]. rewrite digit_value_unit by exact Hd.
    rewrite IH. reflexivity.
Qed.

Lemma fold_digits ds a :
  fold_left (fun a d => a * 10 + d) ds a
  = a * 10 ^ Z.of_nat (length ds) + decimal_value ds.
Proof.
  unfold decimal_value. revert a.
  induction ds as [|d ds IH]; intros a; cbn [fold_left length].
  - change (Z.of_nat 0) with 0. rewrite Z.pow_0_r. lia.
  - rewrite IH, (IH (0 * 10 + d)), Nat2Z.inj_succ, Z.pow_succ_r by lia. ring.
Qed.

Lemma decimal_value_app a b :
  decimal_value (a ++ b)
  = decimal_value a * 10 ^ Z.of_nat (length b) + decimal_value b.
Proof.
  unfold decimal_value at 1. rewrite fold_left_app.
  change (fold_left _ a 0) with (decimal_value a). apply fold_digits.
Qed.

Lemma decimal_value_cons d ds :
  decimal_value (d :: ds) = d * 10 ^ Z.of_nat (length ds) + decimal_value ds.
Proof.
  unfold decimal_value at 1. cbn [fold_left]. rewrite fold_digits. ring.
Qed.

Lemma decimal_value_zeros n : decimal_value (repeat 0 n) = 0.
Proof.
  induction n as [|n IH]; [reflexivity|].
  cbn [repeat]. rewrite decimal_value_cons, IH. lia.
Qed.

Lemma zeros_units n : repeat digit0 n = map digit_unit (repeat 0 n).
Proof. rewrite map_repeat. reflexivity. Qed.

Lemma Forall_zeros n : Forall is_digit (repeat 0 n).
Proof. apply Forall_forall. intros d Hd. apply repeat_spec in Hd. subst d. unfold is_digit. lia. Qed.

Lemma digits_acc_spec fuel :
  forall n acc,
    0 <= n < 2 ^ Z.of_nat fuel -> Forall is_digit acc ->
    Forall is_digit (digits_acc fuel n acc)
    /\ decimal_value (digits_acc fuel n acc)
       = n * 10 ^ Z.of_nat (length acc) + decimal_value acc
    /\ (length acc <= length (digits_acc fuel n acc))%nat
    /\ (0 < n -> exists d r, digits_acc fuel n acc = d :: r /\ 0 < d).
Proof.
  induction fuel as [|fuel IH]; intros n acc Hn Hacc.
  - cbn [digits_acc]. change (2 ^ Z.of_nat 0) with 1 in Hn.
    assert (n = 0) as -> by lia.
    split; [exact Hacc|]. split; [lia|]. split; lia.
  - cbn [digits_acc]. rewrite Nat2Z.inj_succ, Z.pow_succ_r in Hn by lia.
    destruct (Z.ltb_spec n 10) as [Hlt|Hge].
    + split; [|split; [|split]].
      * constructor; [unfold is_digit; lia | exact Hacc].
      * apply decimal_value_cons.
      * cbn [length]. lia.
      * intros Hpos. exists n, acc. split; [reflexivity | exact Hpos].
    + assert (Hd : is_digit (n mod 10))
        by (unfold is_digit; Z.div_mod_to_equations; lia).
      destruct (IH (n / 10) (n mod 10 :: acc)) as (H1 & H2 & H3 & H4);
        [Z.div_mod_to_equations; lia | constructor; assumption |].
      split; [|split; [|split]].
      * exact H1.
      * rewrite H2, decimal_value_cons. cbn [length].
        rewrite Nat2Z.inj_succ, Z.pow_succ_r by lia.
        rewrite (Z.div_mod n 10) at 3 by lia. ring.
      * cbn [length] in H3. lia.
      * intros _. apply H4. Z.div_mod_to_equations. lia.
Qed.

Lemma digits_spec n :
  0 <= n ->
  Forall is_digit (digits n)
  /\ decimal_value (digits n) = n
  /\ (0 < n -> exists d r, digits n = d :: r /\ 0 < d).
Proof.
  intros Hn. unfold digits.
  destruct (digits_acc_spec (S (Z.to_nat (Z.log2 n))) n []) as (H1 & H2 & _ & H4).
  - rewrite Nat2Z.inj_succ, Z2Nat.id by apply Z.log2_nonneg.
    destruct (Z.eq_dec n 0) as [->|Hne]; [cbn; lia|].
    destruct (Z.log2_spec n); lia.
  - constructor.
  - split; [exact H1|]. split; [|exact H4].
    rewrite H2. change (decimal_value []) with 0. cbn [length].
    change (Z.of_nat 0) with 0. rewrite Z.pow_0_r. lia.
Qed.

Lemma digits_nonempty n : digits n <> [].
Proof.
  unfold digits. cbn [digits_acc]. destruct (n <? 10); [discriminate|].
  intros H.
  assert (Hl : forall fuel m acc, (length acc <= length (digits_acc fuel m acc))%nat).
  { induction fuel as [|fuel IH]; intros m acc; cbn [digits_acc]; [lia|].
    destruct (m <? 10); cbn [length]; [lia|].
    specialize (IH (m / 10) (m mod 10 :: acc)). cbn [length] in IH. lia. }
  specialize (Hl (Z.to_nat (Z.log2 n)) (n / 10) [n mod 10]).
  rewrite H in Hl. cbn in Hl. lia.
Qed.

(** *** Literals *)

Lemma take_minus_digit d r :
  is_digit d -> take_minus (digit_unit d :: r) = (false, digit_unit d :: r).
Proof.
  intros H. unfold take_minus. rewrite digit_unit_not_minus by exact H.
  reflexivity.
Qed.

Lemma number_end_no_digit t : number_end t -> no_digit t.
Proof. destruct t as [|c t]; [intros _; exact I|]. intros (H & _). exact H. Qed.

Lemma take_fraction_none t : number_end t -> take_fraction t = Some ([], t).
Proof.
  destruct t as [|c t]; [reflexivity|]. intros (_ & H & _).
  unfold take_fraction. apply N.eqb_neq in H. rewrite H. reflexivity.
Qed.

Lemma take_exponent_none t : number_end t -> take_exponent t = Some (0, t).
Proof.
  destruct t as [|c t]; [reflexivity|]. intros (_ & _ & He & HE).
  unfold take_exponent. apply N.eqb_neq in He, HE. rewrite He, HE. reflexivity.
Qed.

Lemma take_fraction_digits f fs t :
  Forall is_digit (f :: fs) -> no_digit t ->
  take_fraction (dot :: map digit_unit (f :: fs) ++ t) = Some (f :: fs, t).
Proof.
  intros Hfs Ht. unfold take_fraction. rewrite N.eqb_refl.
  rewrite take_digits_units by assumption. reflexivity.
Qed.

Lemma take_exponent_part n t :
  no_digit t -> take_exponent (exponent_part n ++ t) = Some (n - 1, t).
Proof.
  intros Ht. unfold exponent_part. cbn [app take_exponent].
  rewrite N.eqb_refl. cbn [orb].
  destruct (digits_spec (Z.abs (n - 1))) as (Hd & Hv & _); [lia|].
  pose proof (digits_nonempty (Z.abs (n - 1))) as Hne.
  destruct (Z.ltb_spec (n - 1) 0) as [Hneg|Hpos]; cbn [take_sign].
  - rewrite N.eqb_refl. rewrite take_digits_units by assumption.
    destruct (digits (Z.abs (n - 1))) as [|d ds]; [congruence|].
    rewrite Hv. f_equal. f_equal. lia.
  - change (plus =? minus)%N with false. rewrite N.eqb_refl. cbv iota.
    rewrite take_digits_units by assumption.
    destruct (digits (Z.abs (n - 1))) as [|d ds]; [congruence|].
    rewrite Hv. f_equal. f_equal. lia.
Qed.

(** A literal made of an integer part, a fraction and an exponent. *)
Lemma parse_magnitude_literal negative d more ftext fs ex tail rest :
  Forall is_digit (d :: more) -> (d = 0 -> more = []) ->
  no_digit (ftext ++ tail) ->
  take_fraction (ftext ++ tail) = Some (fs, tail) ->
  take_exponent tail = Some (ex, rest) ->
  parse_magnitude negative (map digit_unit (d :: more) ++ ftext ++ tail)
  = Some (round_decimal negative (decimal_value ((d :: more) ++ fs))
            (ex - Z.of_nat (length fs)), rest).
Proof.
  intros Hds Hzero Hnd Hf He. unfold parse_magnitude.
  rewrite take_digits_units by assumption.
  assert ((d =? 0) && negb (is_empty more) = false) as ->.
  { destruct (Z.eqb_spec d 0) as [H0|_]; [|reflexivity].
    rewrite (Hzero H0). reflexivity. }
  rewrite Hf, He. reflexivity.
Qed.

Lemma split_digits (ds : list Z) n :
  (n <= length ds)%nat ->
  exists a b, ds = a ++ b /\ length a = n
    /\ firstn n ds = a /\ skipn n ds = b.
Proof.
  intros H. exists (firstn n ds), (skipn n ds).
  repeat split; [symmetry; apply firstn_skipn | apply firstn_length_le; exact H].
Qed.

(** The digits with an exponent after them. *)
Lemma exponent_case negative s t k d more rest :
  number_end rest ->
  Forall is_digit (digits s) -> decimal_value (digits s) = s ->
  digits s = d :: more ->
  k = Z.of_nat (length (digits s)) ->
  parse_magnitude negative
    (match map digit_unit (digits s) with
     | [] => []
     | [d] => d :: exponent_part (k + t)
     | d :: (_ :: _) as rest => d :: dot :: rest ++ exponent_part (k + t)
     end ++ rest)
  = Some (round_decimal negative s t, rest).
Proof.
  intros Hrest Hd Hv Hds Hk.
  pose proof (number_end_no_digit _ Hrest) as Hnd.
  rewrite Hds in *.
  pose proof (Forall_inv Hd) as Hd1. pose proof (Forall_inv_tail Hd) as Hd2.
  destruct more as [|f fs]; cbn [length] in Hk.
  - pose proof (parse_magnitude_literal negative d [] [] [] (k + t - 1)
                  (exponent_part (k + t) ++ rest) rest Hd
                  (fun _ => eq_refl) eq_refl eq_refl
                  (take_exponent_part (k + t) rest Hnd)) as E.
    cbn [map app] in E |- *. rewrite E, Hv.
    f_equal. f_equal. f_equal. cbn [length]. lia.
  - pose proof (parse_magnitude_literal negative d []
                  (dot :: map digit_unit (f :: fs)) (f :: fs) (k + t - 1)
                  (exponent_part (k + t) ++ rest) rest
                  (Forall_cons d Hd1 (Forall_nil _))
                  (fun _ => eq_refl) eq_refl
                  (take_fraction_digits f fs (exponent_part (k + t) ++ rest) Hd2
                     (eq_refl : no_digit (exponent_part (k + t) ++ rest)))
                  (take_exponent_part (k + t) rest Hnd)) as E.
    cbn [map app] in E |- *. rewrite <- app_assoc. rewrite E, Hv.
    f_equal. f_equal. f_equal. cbn [length]. lia.
Qed.

(** The text of a positive decimal reads as that decimal. *)
Lemma parse_magnitude_format negative s t rest :
  0 < s -> number_end rest ->
  parse_magnitude negative (format (s, t) ++ rest)
  = Some (round_decimal negative s t, rest).
Proof.
  intros Hs Hrest. unfold format. cbn [fst snd]. rewrite length_map.
  destruct (digits_spec s) as (Hd & Hv & Hh); [lia|].
  destruct (Hh Hs) as (d & more & Hds & Hpos). clear Hh.
  pose proof (number_end_no_digit _ Hrest) as Hnd.
  set (k := Z.of_nat (length (digits s))).
  assert (Hk : k = Z.of_nat (length (digits s))) by reflexivity.
  assert (Hk1 : 0 < k) by (rewrite Hk, Hds; cbn [length]; lia).
  clearbody k.
  destruct (Z.leb_spec k (k + t)) as [Hkn|Hkn];
    [destruct (Z.leb_spec (k + t) 21) as [H21|H21]|]; cbn [andb].
  - (* an integer *)
    rewrite zeros_units, <- map_app.
    assert (Hall : Forall is_digit (d :: more ++ repeat 0 (Z.to_nat (k + t - k)))).
    { change (d :: more ++ ?z) with ((d :: more) ++ z).
      rewrite <- Hds. apply Forall_app. split; [exact Hd | apply Forall_zeros]. }
    pose proof (parse_magnitude_literal negative d
                  (more ++ repeat 0 (Z.to_nat (k + t - k))) [] [] 0 rest rest
                  Hall ltac:(lia) Hnd (take_fraction_none rest Hrest)
                  (take_exponent_none rest Hrest)) as E.
    rewrite Hds. cbn [map app] in E |- *. rewrite E. clear E.
    rewrite app_nil_r. change (d :: more ++ ?z) with ((d :: more) ++ z).
    rewrite <- Hds, decimal_value_app, Hv, decimal_value_zeros, repeat_length.
    cbn [length]. change (Z.of_nat 0) with 0.
    replace (0 - 0) with 0 by lia. rewrite Z2Nat.id by lia.
    replace (k + t - k) with t by lia.
    unfold round_decimal. destruct (Z.leb_spec 0 t); [|lia].
    change (0 <=? 0) with true. cbv iota.
    rewrite Z.pow_0_r, Z.add_0_r, Z.mul_1_r. reflexivity.
  - (* an integer above 10^21: with an exponent *)
    destruct (Z.ltb_spec 0 (k + t)); [|lia].
    destruct (Z.leb_spec (k + t) 21); [lia|]. cbn [andb].
    destruct (Z.ltb_spec (-6) (k + t)); [|lia].
    destruct (Z.leb_spec (k + t) 0); [lia|]. cbn [andb].
    apply (exponent_case negative s t k d more rest); assumption.
  - destruct (Z.ltb_spec 0 (k + t)) as [Hn0|Hn0];
      [destruct (Z.leb_spec (k + t) 21) as [H21|H21]|]; cbn [andb].
    + (* a point inside the digits *)
      rewrite firstn_map, skipn_map.
      destruct (split_digits (digits s) (Z.to_nat (k + t)))
        as (a & b & Hab & Hla & -> & ->); [lia|].
      rewrite Hab in Hd, Hv, Hk, Hds. rewrite length_app in Hk.
      apply Forall_app in Hd as [Hda Hdb].
      destruct a as [|d' a]; [cbn [length] in Hla; lia|].
      destruct b as [|f fs]; [cbn [length] in Hk, Hla; lia|].
      cbn [length] in Hk, Hla.
      cbn [app] in Hds. injection Hds as -> Hmore.
      pose proof (parse_magnitude_literal negative d a
                    (dot :: map digit_unit (f :: fs)) (f :: fs) 0 rest rest
                    Hda ltac:(lia) eq_refl
                    (take_fraction_digits f fs rest Hdb Hnd)
                    (take_exponent_none rest Hrest)) as E.
      cbn [map app] in E, Hv |- *. rewrite <- app_assoc. cbn [app].
      rewrite E, Hv. f_equal. f_equal. f_equal. cbn [length]. lia.
    + (* with an exponent *)
      destruct (Z.ltb_spec (-6) (k + t)); [|lia].
      destruct (Z.leb_spec (k + t) 0); [lia|]. cbn [andb].
      apply (exponent_case negative s t k d more rest); assumption.
    + destruct (Z.ltb_spec (-6) (k + t)) as [H6|H6];
        [destruct (Z.leb_spec (k + t) 0) as [H0|H0]; [|lia]|]; cbn [andb].
      * (* zeros after the point *)
        rewrite zeros_units.
        assert (Hne : repeat 0 (Z.to_nat (- (k + t))) ++ digits s <> []).
        { rewrite Hds. destruct (repeat _ _); discriminate. }
        assert (Hall : Forall is_digit (repeat 0 (Z.to_nat (- (k + t))) ++ digits s)).
        { apply Forall_app. split; [apply Forall_zeros | exact Hd]. }
        destruct (repeat 0 (Z.to_nat (- (k + t))) ++ digits s) as [|f fs] eqn:Hfs;
          [congruence|].
        pose proof (parse_magnitude_literal negative 0 []
                      (dot :: map digit_unit (f :: fs)) (f :: fs) 0 rest rest
                      ltac:(constructor; [unfold is_digit; lia | constructor])
                      (fun _ => eq_refl) eq_refl
                      (take_fraction_digits f fs rest Hall Hnd)
                      (take_exponent_none rest Hrest)) as E.
        rewrite <- Hfs in E. rewrite map_app in E.
        cbn [map app] in E |- *. rewrite <- !app_assoc in E |- *.
        change (digit_unit 0) with digit0 in E. rewrite E. clear E.
        rewrite decimal_value_cons, decimal_value_app, decimal_value_zeros, Hv.
        rewrite length_app, repeat_length.
        f_equal. f_equal. f_equal; lia.
      * apply (exponent_case negative s t k d more rest); assumption.
Qed.

Lemma format_start s t :
  0 < s -> exists d r, format (s, t) = digit_unit d :: r /\ is_digit d.
Proof.
  intros Hs. unfold format. cbn [fst snd]. rewrite length_map.
  destruct (digits_spec s) as (Hd & _ & Hh); [lia|].
  destruct (Hh Hs) as (d & more & Hds & Hpos). clear Hh.
  rewrite Hds in *. pose proof (Forall_inv Hd) as Hd1.
  assert (H0 : is_digit 0) by (unfold is_digit; lia).
  set (k := Z.of_nat (length (d :: more))).
  destruct ((k <=? k + t) && (k + t <=? 21)).
  { cbn [map app]. eexists. eexists. split; [reflexivity | exact Hd1]. }
  destruct (Z.ltb_spec 0 (k + t)); cbn [andb].
  - destruct (k + t <=? 21).
    + destruct (Z.to_nat (k + t)) as [|n] eqn:Hn; [lia|].
      cbn [map firstn app]. eexists. eexists.
      split; [reflexivity | exact Hd1].
    + destruct (((-6 <? k + t) && (k + t <=? 0))).
      * exists 0. eexists. split; [reflexivity | exact H0].
      * cbn [map]. destruct (map digit_unit more); eexists; eexists;
          (split; [reflexivity | exact Hd1]).
  - destruct (((-6 <? k + t) && (k + t <=? 0))).
    + exists 0. eexists. split; [reflexivity | exact H0].
    + cbn [map]. destruct (map digit_unit more); eexists; eexists;
        (split; [reflexivity | exact Hd1]).
Qed.

(** A finite number is written as a literal that starts with a digit or a
    minus sign. *)
Lemma Number_toString_start x :
  is_finite x = true ->
  exists c r, Number_toString x = c :: r /\ number_start c.
Proof.
  destruct x as [b|[|] m e|b|]; try discriminate; intros _.
  - eexists. eexists. split; [reflexivity|].
    right. exists 0. split; [unfold is_digit; lia | reflexivity].
  - eexists. eexists. split; [reflexivity | left; reflexivity].
  - cbn [Number_toString]. pose proof (shortest_positive m e) as Hp.
    destruct (shortest m e) as [s t].
    destruct (format_start s t Hp) as (d & r & Hf & Hd).
    exists (digit_unit d), r. split; [exact Hf|].
    right. exists d. split; [exact Hd | reflexivity].
Qed.

(** The text of a finite number reads as that number, and as zero for
    negative zero. *)
Lemma parse_number_toString x rest :
  canonical x = true -> is_finite x = true -> number_end rest ->
  lift JNumber (parse_number (Number_toString x ++ rest))
  = Some (written_number x, rest).
Proof.
  intros Hc Hl Hrest.
  pose proof (number_end_no_digit _ Hrest) as Hnd.
  assert (Hzero : parse_number ([digit0] ++ rest) = Some (Zero false, rest)).
  { exact (parse_magnitude_literal false 0 [] [] [] 0 rest rest
             ltac:(constructor; [unfold is_digit; lia | constructor])
             (fun _ => eq_refl) Hnd
             (take_fraction_none rest Hrest)
             (take_exponent_none rest Hrest)). }
  destruct x as [b|[|] m e| |]; try discriminate.
  - cbn [Number_toString]. rewrite Hzero. reflexivity.
  - cbn [Number_toString app]. unfold parse_number. cbn [take_minus].
    rewrite N.eqb_refl.
    pose proof (shortest_positive m e) as Hp.
    pose proof (shortest_reads m e Hc) as Hr.
    destruct (shortest m e) as [s t]. cbn [fst snd] in Hp, Hr.
    rewrite parse_magnitude_format by assumption.
    rewrite round_decimal_sign, Hr. reflexivity.
  - cbn [Number_toString]. unfold parse_number.
    pose proof (shortest_positive m e) as Hp.
    pose proof (shortest_reads m e Hc) as Hr.
    destruct (shortest m e) as [s t]. cbn [fst snd] in Hp, Hr.
    destruct (format_start s t Hp) as (d & r & Hf & Hd).
    pose proof (parse_magnitude_format false s t rest Hp Hrest) as E.
    rewrite Hf in E |- *. cbn [app] in E |- *.
    rewrite take_minus_digit by exact Hd. rewrite E, Hr. reflexivity.
Qed.

End NumberFacts.

(** ** Facts about the serializer and the parser *)

Module JsonFacts.
Import Text Numbers Json TextNotions NumberFacts.

Lemma blank_app a b : blank a -> blank b -> blank (a ++ b).
Proof. intros Ha Hb. apply Forall_app. split; assumption. Qed.

Lemma blank_spaces n : blank (repeat space n).
Proof. induction n; simpl; constructor; auto. Qed.

Lemma skip_ws_blank ws t : blank ws -> skip_ws (ws ++ t) = skip_ws t.
Proof.
  induction 1 as [|c ws Hc _ IH]; simpl; [reflexivity|].
  rewrite Hc. exact IH.
Qed.

Lemma skip_ws_start t : starts_value t = true -> skip_ws t = t.
Proof.
  destruct t as [|c t]; simpl; [discriminate|].
  destruct (is_ws c); simpl; [discriminate | reflexivity].
Qed.

(** Strings. *)

Lemma jstring_eqb_eq a b : jstring_eqb a b = true <-> a = b.
Proof.
  revert b. induction a as [|x a IH]; intros [|y b]; cbn;
    try (split; [discriminate | discriminate]); [split; reflexivity|].
  rewrite andb_true_iff, N.eqb_eq, IH. split.
  - intros [-> ->]. reflexivity.
  - intros H. injection H as -> ->. split; reflexivity.
Qed.

Lemma jstring_eqb_sym a b : jstring_eqb a b = jstring_eqb b a.
Proof.
  destruct (jstring_eqb a b) eqn:H1, (jstring_eqb b a) eqn:H2; try reflexivity.
  - apply jstring_eqb_eq in H1. subst b.
    assert (jstring_eqb a a = true) by (apply jstring_eqb_eq; reflexivity).
    congruence.
  - apply jstring_eqb_eq in H2. subst b.
    assert (jstring_eqb a a = true) by (apply jstring_eqb_eq; reflexivity).
    congruence.
Qed.

Lemma hex_value_unit d : (d < 16)%N -> hex_value (hex_unit d) = Some d.
Proof.
  intros H. unfold hex_unit, hex_value.
  destruct (N.ltb_spec d 10) as [Hlt|Hge].
  - destruct (N.leb_spec 48 (48 + d)); [|lia].
    destruct (N.leb_spec (48 + d) 57); [|lia]. cbn [andb]. f_equal. lia.
  - destruct (N.leb_spec 48 (87 + d)); [|lia].
    destruct (N.leb_spec (87 + d) 57); [lia|]. cbn [andb].
    destruct (N.leb_spec 97 (87 + d)); [|lia].
    destruct (N.leb_spec (87 + d) 102); [|lia]. cbn [andb]. f_equal. lia.
Qed.

Lemma hex4_escape c :
  (c < 65536)%N ->
  hex4 (hex_unit ((c / 4096) mod 16)) (hex_unit ((c / 256) mod 16))
       (hex_unit ((c / 16) mod 16)) (hex_unit (c mod 16)) = Some c.
Proof.
  intros H. unfold hex4.
  rewrite !hex_value_unit by (apply N.mod_lt; discriminate).
  f_equal.
  pose proof (N.div_mod c 16 ltac:(discriminate)) as H1.
  pose proof (N.div_mod (c / 16) 16 ltac:(discriminate)) as H2.
  pose proof (N.div_mod (c / 256) 16 ltac:(discriminate)) as H3.
  rewrite N.Div0.div_div in H2. change (16 * 16)%N with 256%N in H2.
  assert (Hd : (c / 256 / 16 = c / 4096)%N)
    by (rewrite N.Div0.div_div; reflexivity).
  rewrite Hd in H3.
  assert (H4 : ((c / 4096) mod 16 = c / 4096)%N).
  { apply N.mod_small. apply N.Div0.div_lt_upper_bound. exact H. }
  lia.
Qed.

Lemma escape_parse c t :
  (c < 65536)%N ->
  parse_string_body (UnicodeEscape c ++ t) = prepend c (parse_string_body t).
Proof.
  intros H. unfold UnicodeEscape. cbn [app parse_string_body].
  change (backslash =? dquote)%N with false.
  change (backslash =? backslash)%N with true.
  change (letter_u =? letter_u)%N with true. cbv iota.
  rewrite hex4_escape by exact H. reflexivity.
Qed.

Lemma literal_parse c t :
  (space <= c)%N -> c <> dquote -> c <> backslash ->
  parse_string_body (c :: t) = prepend c (parse_string_body t).
Proof.
  intros Hs Hq Hb. cbn [parse_string_body].
  apply N.eqb_neq in Hq, Hb. rewrite Hq, Hb.
  destruct (N.ltb_spec c space); [lia | reflexivity].
Qed.

Lemma quote_unit_parse c t :
  parse_string_body (quote_unit c ++ t) = prepend c (parse_string_body t).
Proof.
  unfold quote_unit.
  destruct (N.eqb_spec c 8) as [->|H8]; [reflexivity|].
  destruct (N.eqb_spec c 9) as [->|H9]; [reflexivity|].
  destruct (N.eqb_spec c 10) as [->|H10]; [reflexivity|].
  destruct (N.eqb_spec c 12) as [->|H12]; [reflexivity|].
  destruct (N.eqb_spec c 13) as [->|H13]; [reflexivity|].
  destruct (N.eqb_spec c dquote) as [->|Hq]; [reflexivity|].
  destruct (N.eqb_spec c backslash) as [->|Hb]; [reflexivity|].
  destruct (N.ltb_spec c space) as [Hlt|Hge].
  - apply escape_parse. unfold space in Hlt. lia.
  - apply literal_parse; assumption.
Qed.

Lemma surrogate_bound c :
  is_leading_surrogate c = true \/ is_trailing_surrogate c = true ->
  (c < 65536)%N /\ (space <= c)%N /\ c <> dquote /\ c <> backslash.
Proof.
  unfold is_leading_surrogate, is_trailing_surrogate, space, dquote, backslash.
  intros [H|H]; apply andb_true_iff in H as [H1 H2];
    apply N.leb_le in H1, H2; repeat split; lia.
Qed.

Lemma parse_quoted_units n : forall s rest,
  length s <= n ->
  parse_string_body (quote_units s ++ dquote :: rest) = Some (s, rest).
Proof.
  induction n as [|n IH]; intros s rest Hn.
  - destruct s; [reflexivity | cbn in Hn; lia].
  - destruct s as [|c s]; [reflexivity|]. cbn [length] in Hn.
    cbn [quote_units].
    destruct (is_leading_surrogate c) eqn:Hlead.
    + destruct (surrogate_bound c (or_introl Hlead)) as (Hb & Hsp & Hq & Hbs).
      destruct s as [|d s].
      * rewrite escape_parse by exact Hb. reflexivity.
      * destruct (is_trailing_surrogate d) eqn:Htrail.
        -- destruct (surrogate_bound d (or_intror Htrail)) as (_ & Hsp' & Hq' & Hbs').
           cbn [app]. rewrite !literal_parse by assumption.
           rewrite IH; [reflexivity | cbn [length] in Hn; lia].
        -- rewrite <- app_assoc, escape_parse by exact Hb.
           rewrite IH; [reflexivity | lia].
    + destruct (is_trailing_surrogate c) eqn:Htrail.
      * destruct (surrogate_bound c (or_intror Htrail)) as (Hb & _).
        rewrite <- app_assoc, escape_parse by exact Hb.
        rewrite IH; [reflexivity | lia].
      * rewrite <- app_assoc, quote_unit_parse.
        rewrite IH; [reflexivity | lia].
Qed.

Lemma parse_string_body_quoted s rest :
  parse_string_body (quote_units s ++ dquote :: rest) = Some (s, rest).
Proof. apply (parse_quoted_units (length s)). reflexivity. Qed.

(** Numbers. *)

Lemma ends_value_cases c t :
  ends_value (c :: t) = true ->
  c = 32%N \/ c = 9%N \/ c = 10%N \/ c = 13%N
  \/ c = comma \/ c = rbracket \/ c = rbrace.
Proof.
  unfold ends_value, is_ws. intros H.
  repeat (apply orb_true_iff in H as [H|H]); apply N.eqb_eq in H; tauto.
Qed.

Lemma ends_value_number_end t : ends_value t = true -> number_end t.
Proof.
  destruct t as [|c t]; [intros _; exact I|]. intros H.
  apply ends_value_cases in H.
  repeat (destruct H as [H|H]); subst c;
    (split; [reflexivity | repeat split; discriminate]).
Qed.

Lemma number_start_cases c :
  number_start c ->
  c = minus \/ c = 48%N \/ c = 49%N \/ c = 50%N \/ c = 51%N \/ c = 52%N
  \/ c = 53%N \/ c = 54%N \/ c = 55%N \/ c = 56%N \/ c = 57%N.
Proof.
  intros [H|(d & Hd & H)]; [left; exact H|]. right.
  unfold is_digit in Hd. unfold digit_unit in H. lia.
Qed.

(** Unfolding the parser one step. *)

Lemma parse_value_blank fuel ws t :
  blank ws -> parse_value fuel (ws ++ t) = parse_value fuel t.
Proof.
  intros Hws. destruct fuel; [reflexivity|].
  cbn [parse_value]. rewrite skip_ws_blank by exact Hws. reflexivity.
Qed.

Lemma parse_value_string fuel r :
  parse_value (S fuel) (dquote :: r) = lift JString (parse_string_body r).
Proof. reflexivity. Qed.

Lemma parse_value_array fuel r :
  parse_value (S fuel) (lbracket :: r)
  = match peek rbracket (skip_ws r) with
    | Some r' => Some (JArray [], r')
    | None => lift JArray (parse_elements fuel r)
    end.
Proof. reflexivity. Qed.

Lemma parse_value_object fuel r :
  parse_value (S fuel) (lbrace :: r)
  = match peek rbrace (skip_ws r) with
    | Some r' => Some (JObject [], r')
    | None => lift (fun ms => JObject (obj_of_members ms)) (parse_members fuel r)
    end.
Proof. reflexivity. Qed.

Lemma parse_value_number fuel c r :
  number_start c ->
  parse_value (S fuel) (c :: r) = lift JNumber (parse_number (c :: r)).
Proof.
  intros H. apply number_start_cases in H.
  repeat (destruct H as [H|H]); subst c; reflexivity.
Qed.

Lemma parse_elements_step fuel t :
  parse_elements (S fuel) t
  = match parse_value fuel t with
    | None => None
    | Some (v, r) =>
        match peek comma (skip_ws r) with
        | Some r' => lift (cons v) (parse_elements fuel r')
        | None =>
            match peek rbracket (skip_ws r) with
            | Some r' => Some ([v], r')
            | None => None
            end
        end
    end.
Proof. reflexivity. Qed.

Lemma parse_members_step fuel t :
  parse_members (S fuel) t
  = match peek dquote (skip_ws t) with
    | None => None
    | Some r =>
        match parse_string_body r with
        | None => None
        | Some (k, r1) =>
            match peek colon (skip_ws r1) with
            | None => None
            | Some r2 =>
                match parse_value fuel r2 with
                | None => None
                | Some (v, r3) =>
                    match peek comma (skip_ws r3) with
                    | Some r4 => lift (cons (k, v)) (parse_members fuel r4)
                    | None =>
                        match peek rbrace (skip_ws r3) with
                        | Some r4 => Some ([(k, v)], r4)
                        | None => None
                        end
                    end
                end
            end
        end
    end.
Proof. reflexivity. Qed.

(** The shape of what the serializer writes. *)

Lemma enclose_shape o c gap stepback indent p partial :
  blank stepback -> blank indent ->
  exists A C, blank A /\ blank C /\
    enclose o c gap stepback indent (p :: partial)
    = o :: A ++ join (comma :: A) (p :: partial) ++ C ++ [c].
Proof.
  intros Hs Hi. unfold enclose. cbn [is_empty].
  destruct gap as [|g gap]; cbn [is_empty].
  - exists [], []. split; [constructor|]. split; [constructor|].
    cbn [app]. reflexivity.
  - exists (newline :: indent), (newline :: stepback).
    split; [constructor; [reflexivity | assumption]|].
    split; [constructor; [reflexivity | assumption]|].
    cbn [app]. reflexivity.
Qed.

Lemma member_shape gap k value :
  member gap k value
  = dquote :: quote_units k ++ dquote :: colon :: colon_gap gap ++ value.
Proof.
  unfold member, QuoteJSONString, colon_gap.
  cbn [app]. rewrite <- app_assoc. cbn [app].
  destruct (is_empty gap); reflexivity.
Qed.

Lemma blank_colon_gap gap : blank (colon_gap gap).
Proof.
  unfold colon_gap. destruct (is_empty gap); repeat constructor.
Qed.

Lemma number_starts_value c t : number_start c -> starts_value (c :: t) = true.
Proof.
  intros H. apply number_start_cases in H.
  repeat (destruct H as [H|H]); subst c; reflexivity.
Qed.

Lemma serialize_starts_value gap indent v rest :
  starts_value (SerializeJSONProperty gap indent v ++ rest) = true.
Proof.
  destruct v as [|[|]|x|s|items|props]; try reflexivity.
  - cbn [SerializeJSONProperty].
    destruct (is_finite x) eqn:Hx; [|reflexivity].
    destruct (Number_toString_start x Hx) as (c & t & -> & Hc).
    apply number_starts_value. exact Hc.
  - cbn [SerializeJSONProperty]. unfold enclose.
    destruct (is_empty _); [reflexivity|]. destruct (is_empty gap); reflexivity.
  - cbn [SerializeJSONProperty]. unfold enclose.
    destruct (is_empty _); [reflexivity|]. destruct (is_empty gap); reflexivity.
Qed.

Lemma peek_starts_value t :
  starts_value t = true ->
  skip_ws t = t /\ peek rbracket t = None /\ peek rbrace t = None.
Proof.
  intros H. split; [apply skip_ws_start; exact H|].
  destruct t as [|c t]; [discriminate|]. cbn in H |- *.
  destruct (c =? rbracket)%N, (c =? rbrace)%N, (is_ws c);
    cbn in H; try discriminate; split; reflexivity.
Qed.

Lemma ends_value_blank C c rest :
  blank C -> ends_value (c :: rest) = true -> ends_value (C ++ c :: rest) = true.
Proof.
  intros HC Hc. destruct HC as [|x C Hx _]; [exact Hc|].
  cbn. rewrite Hx. reflexivity.
Qed.

(** Objects with distinct property names in the order of the language are
    built as they are written. *)

Lemma has_key_keys k o : has_key k o = existsb (jstring_eqb k) (map fst o).
Proof.
  unfold has_key. induction o as [|kv o IH]; cbn; [reflexivity|].
  rewrite IH. reflexivity.
Qed.

Lemma obj_insert_last k v o :
  forallb (fun k' => negb (key_before k k')) (map fst o) = true ->
  obj_insert k v o = o ++ [(k, v)].
Proof.
  induction o as [|[k' v'] o IH]; cbn; [reflexivity|].
  intros H. apply andb_true_iff in H as [Hk Ho].
  apply negb_true_iff in Hk. rewrite Hk, IH by exact Ho. reflexivity.
Qed.

Lemma unique_app_fresh k ks acc :
  unique (acc ++ k :: ks) = true -> existsb (jstring_eqb k) acc = false.
Proof.
  induction acc as [|a acc IH]; cbn; [reflexivity|].
  intros H. apply andb_true_iff in H as [Ha Hu].
  rewrite IH by exact Hu. rewrite orb_false_r.
  apply negb_true_iff in Ha. rewrite existsb_app in Ha.
  apply orb_false_iff in Ha as [_ Ha]. cbn in Ha.
  apply orb_false_iff in Ha as [Ha _]. rewrite jstring_eqb_sym. exact Ha.
Qed.

Lemma ordered_app_last k ks acc :
  ordered (acc ++ k :: ks) = true ->
  forallb (fun k' => negb (key_before k k')) acc = true.
Proof.
  induction acc as [|a acc IH]; cbn; [reflexivity|].
  intros H. apply andb_true_iff in H as [Ha Ho].
  rewrite IH by exact Ho. rewrite andb_true_r.
  rewrite forallb_app in Ha. apply andb_true_iff in Ha as [_ Ha].
  cbn in Ha. apply andb_true_iff in Ha as [Ha _]. exact Ha.
Qed.

Lemma fold_obj_set ms acc :
  unique (map fst (acc ++ ms)) = true ->
  ordered (map fst (acc ++ ms)) = true ->
  fold_left (fun o kv => obj_set (fst kv) (snd kv) o) ms acc = acc ++ ms.
Proof.
  revert acc. induction ms as [|[k v] ms IH]; intros acc Hu Ho; cbn [fold_left].
  - rewrite app_nil_r. reflexivity.
  - cbn [fst snd]. rewrite map_app in Hu, Ho. cbn [map fst] in Hu, Ho.
    unfold obj_set. rewrite has_key_keys, (unique_app_fresh _ _ _ Hu).
    rewrite obj_insert_last by apply (ordered_app_last _ _ _ Ho).
    rewrite IH; rewrite <- app_assoc; [reflexivity | |];
      rewrite map_app; assumption.
Qed.

Lemma obj_of_members_ordered ms :
  unique (map fst ms) = true -> ordered (map fst ms) = true ->
  obj_of_members ms = ms.
Proof. intros Hu Ho. apply (fold_obj_set ms [] Hu Ho). Qed.

Lemma join_two sep p q ps :
  join sep (p :: q :: ps) = p ++ sep ++ join sep (q :: ps).
Proof. reflexivity. Qed.

Lemma skip_ws_cons c t : is_ws c = false -> skip_ws (c :: t) = c :: t.
Proof. intros H. cbn [skip_ws]. rewrite H. reflexivity. Qed.

Lemma peek_same c t : peek c (c :: t) = Some t.
Proof. cbn [peek]. rewrite N.eqb_refl. reflexivity. Qed.

Lemma elements_read_back gap indent items :
  Forall (reads_back gap) items -> items <> [] -> blank indent ->
  forall A C rest fuel,
    blank A -> blank C ->
    list_sum (map (fun x => S (size x)) items) <= fuel ->
    parse_elements fuel
      (A ++ join (comma :: A) (map (SerializeJSONProperty gap indent) items)
         ++ C ++ rbracket :: rest)
    = Some (map written items, rest).
Proof.
  intros Hall. induction Hall as [|x items Hx _ IH]; [congruence|].
  intros _ Hind A C rest fuel HA HC Hfuel.
  destruct fuel as [|fuel]; [cbn in Hfuel; lia|].
  cbn [map list_sum fold_right] in Hfuel.
  rewrite parse_elements_step, parse_value_blank by exact HA.
  destruct items as [|y items].
  - cbn [map join].
    rewrite (Hx indent (C ++ rbracket :: rest) fuel Hind);
      [| lia | apply ends_value_blank; [exact HC | reflexivity]].
    rewrite skip_ws_blank by exact HC. reflexivity.
  - cbn [map]. rewrite join_two. rewrite <- !app_assoc. cbn [app].
    rewrite (Hx indent _ fuel Hind); [| lia | reflexivity].
    rewrite skip_ws_cons, peek_same by reflexivity.
    specialize (IH ltac:(congruence) Hind A C rest fuel HA HC).
    cbn [map] in IH. rewrite IH; [reflexivity|].
    cbn [map list_sum fold_right] in Hfuel |- *. lia.
Qed.

Lemma member_read_back gap indent k x A tail fuel :
  reads_back gap x -> blank indent -> blank A ->
  size x <= fuel -> ends_value tail = true ->
  exists r,
    peek dquote (skip_ws (A ++ member gap k (SerializeJSONProperty gap indent x) ++ tail))
      = Some r /\
    parse_string_body r = Some (k, colon :: colon_gap gap
                                  ++ SerializeJSONProperty gap indent x ++ tail) /\
    parse_value fuel (colon_gap gap ++ SerializeJSONProperty gap indent x ++ tail)
      = Some (written x, tail).
Proof.
  intros Hx Hind HA Hfuel Htail.
  rewrite member_shape, skip_ws_blank by exact HA.
  cbn [app]. rewrite skip_ws_cons, peek_same by reflexivity.
  eexists. split; [reflexivity|]. split.
  - rewrite <- app_assoc. cbn [app].
    rewrite parse_string_body_quoted. rewrite <- app_assoc. reflexivity.
  - rewrite parse_value_blank by apply blank_colon_gap.
    apply Hx; assumption.
Qed.

Lemma members_read_back gap indent props :
  Forall (fun kv => reads_back gap (snd kv)) props -> props <> [] -> blank indent ->
  forall A C rest fuel,
    blank A -> blank C ->
    list_sum (map (fun kv => S (size (snd kv))) props) <= fuel ->
    parse_members fuel
      (A ++ join (comma :: A)
              (map (fun kv => member gap (fst kv)
                      (SerializeJSONProperty gap indent (snd kv))) props)
         ++ C ++ rbrace :: rest)
    = Some (map (fun kv => (fst kv, written (snd kv))) props, rest).
Proof.
  intros Hall. induction Hall as [|[k x] props Hx _ IH]; [congruence|].
  intros _ Hind A C rest fuel HA HC Hfuel.
  destruct fuel as [|fuel]; [cbn in Hfuel; lia|].
  cbn [map list_sum fold_right fst snd] in Hfuel, Hx.
  rewrite parse_members_step.
  destruct props as [|y props].
  - cbn [map join fst snd].
    destruct (member_read_back gap indent k x A (C ++ rbrace :: rest) fuel Hx Hind HA)
      as (r & -> & -> & Hv);
      [lia | apply ends_value_blank; [exact HC | reflexivity] |].
    rewrite skip_ws_cons, peek_same by reflexivity. rewrite Hv.
    rewrite skip_ws_blank by exact HC. reflexivity.
  - cbn [map fst snd]. rewrite join_two. rewrite <- !app_assoc. cbn [app].
    match goal with
    | |- context [member gap k _ ++ ?t] =>
        destruct (member_read_back gap indent k x A t fuel Hx Hind HA)
          as (r & -> & -> & Hv); [lia | reflexivity |]
    end.
    rewrite skip_ws_cons, peek_same by reflexivity. rewrite Hv.
    rewrite skip_ws_cons, peek_same by reflexivity.
    specialize (IH ltac:(congruence) Hind A C rest fuel HA HC).
    cbn [map] in IH. rewrite IH.
    + reflexivity.
    + cbn [map list_sum fold_right] in Hfuel |- *. lia.
Qed.

Lemma join_starts_value sep p ps rest :
  (forall r, starts_value (p ++ r) = true) ->
  starts_value (join sep (p :: ps) ++ rest) = true.
Proof.
  intros H. destruct ps; cbn [join]; rewrite <- ?app_assoc; apply H.
Qed.

Lemma written_keys props :
  map fst (map (fun kv : jstring * JSON => (fst kv, written (snd kv))) props)
  = map fst props.
Proof. rewrite map_map. reflexivity. Qed.

(** Every value of the language is read as what was written of it. *)
Lemma serialize_reads_back gap :
  blank gap -> forall v, js_value v = true -> reads_back gap v.
Proof.
  intros Hgap v.
  induction v as [|b|x|s|items IH|props IH] using JSON_ind;
    intros Hd indent rest fuel Hind Hfuel Hrest;
    (destruct fuel as [|fuel]; [cbn in Hfuel; lia|]).
  - reflexivity.
  - destruct b; reflexivity.
  - cbn [SerializeJSONProperty js_value written] in *.
    destruct (is_finite x) eqn:Hx; [|destruct x; try discriminate; reflexivity].
    pose proof (parse_number_toString x rest Hd Hx
                  (ends_value_number_end rest Hrest)) as Hn.
    destruct (Number_toString_start x Hx) as (c & t & Hc & Hh).
    rewrite Hc in *. cbn [app] in *.
    rewrite parse_value_number by exact Hh. exact Hn.
  - cbn [SerializeJSONProperty]. unfold QuoteJSONString.
    cbn [app]. rewrite parse_value_string, <- app_assoc. cbn [app].
    rewrite parse_string_body_quoted. reflexivity.
  - cbn [SerializeJSONProperty written]. cbn [js_value] in Hd.
    destruct items as [|x items]; [reflexivity|].
    assert (Hall : Forall (reads_back gap) (x :: items)).
    { rewrite forallb_forall in Hd. rewrite Forall_forall in IH |- *.
      intros y Hy. apply IH; [exact Hy | apply Hd; exact Hy]. }
    cbn [map].
    destruct (enclose_shape lbracket rbracket gap indent (indent ++ gap)
                (SerializeJSONProperty gap (indent ++ gap) x)
                (map (SerializeJSONProperty gap (indent ++ gap)) items)
                Hind (blank_app _ _ Hind Hgap)) as (A & C & HA & HC & ->).
    cbn [app]. rewrite parse_value_array.
    rewrite <- !app_assoc. cbn [app]. rewrite skip_ws_blank by exact HA.
    match goal with
    | |- context [peek rbracket (skip_ws ?t)] =>
        assert (Hs : starts_value t = true)
          by (apply join_starts_value; intros r;
              apply serialize_starts_value);
        destruct (peek_starts_value t Hs) as (-> & -> & _)
    end.
    pose proof (elements_read_back gap (indent ++ gap) (x :: items) Hall
                  ltac:(congruence) (blank_app _ _ Hind Hgap) A C rest fuel HA HC) as He.
    cbn [map app] in He. rewrite He; [reflexivity|].
    cbn [size] in Hfuel. cbn [map] in Hfuel |- *. lia.
  - cbn [SerializeJSONProperty written]. cbn [js_value] in Hd.
    apply andb_true_iff in Hd as [Hu Hd]. apply andb_true_iff in Hu as [Hu Ho].
    destruct props as [|[k x] props]; [reflexivity|].
    assert (Hall : Forall (fun kv => reads_back gap (snd kv)) ((k, x) :: props)).
    { rewrite forallb_forall in Hd. rewrite Forall_forall in IH |- *.
      intros y Hy. apply IH; [exact Hy | apply Hd; exact Hy]. }
    cbn [map].
    match goal with
    | |- context [enclose _ _ _ _ _ (?p :: ?ps)] =>
        destruct (enclose_shape lbrace rbrace gap indent (indent ++ gap) p ps
                    Hind (blank_app _ _ Hind Hgap)) as (A & C & HA & HC & ->)
    end.
    cbn [app]. rewrite parse_value_object.
    rewrite <- !app_assoc. cbn [app]. rewrite skip_ws_blank by exact HA.
    match goal with
    | |- context [peek rbrace (skip_ws ?t)] =>
        assert (Hs : starts_value t = true)
          by (apply join_starts_value; intros r;
              rewrite member_shape; reflexivity);
        destruct (peek_starts_value t Hs) as (-> & _ & ->)
    end.
    pose proof (members_read_back gap (indent ++ gap) ((k, x) :: props) Hall
                  ltac:(congruence) (blank_app _ _ Hind Hgap) A C rest fuel HA HC) as He.
    cbn [map app] in He. rewrite He.
    + cbn [lift fst snd].
      rewrite obj_of_members_ordered;
        [reflexivity | |]; cbn [map fst]; rewrite written_keys; assumption.
    + cbn [size] in Hfuel. cbn [map] in Hfuel |- *. lia.
Qed.

(** The length of the text is enough fuel. *)

Lemma join_length c A p ps :
  list_sum (map (fun q => S (length q)) (p :: ps))
  <= S (length (join (c :: A) (p :: ps))).
Proof.
  revert p. induction ps as [|q ps IH]; intros p.
  - cbn. lia.
  - rewrite join_two. specialize (IH q).
    cbn [map list_sum fold_right] in IH |- *.
    rewrite !length_app. cbn [length]. unfold jstring in *. lia.
Qed.

Lemma enclose_length o c gap stepback indent partial :
  S (list_sum (map (fun q => S (length q)) partial))
  <= length (enclose o c gap stepback indent partial).
Proof.
  destruct partial as [|p ps]; [cbn; lia|].
  pose proof (join_length comma [] p ps) as H1.
  pose proof (join_length comma (newline :: indent) p ps) as H2.
  unfold enclose. cbn [is_empty]. destruct (is_empty gap); cbn [length];
    rewrite ?length_app; cbn [length]; rewrite ?length_app; cbn [length];
    unfold jstring in *; lia.
Qed.

Lemma list_sum_le {A : Type} (f g : A -> nat) l :
  Forall (fun x => f x <= g x) l -> list_sum (map f l) <= list_sum (map g l).
Proof.
  induction 1 as [|x l Hx _ IH]; [reflexivity|].
  change (f x + list_sum (map f l) <= g x + list_sum (map g l)). lia.
Qed.

Lemma size_le_length gap v :
  forall indent, size v <= length (SerializeJSONProperty gap indent v).
Proof.
  induction v as [|b|x|s|items IH|props IH] using JSON_ind; intros indent.
  - cbn. lia.
  - destruct b; cbn; lia.
  - cbn [SerializeJSONProperty size].
    destruct (is_finite x) eqn:Hx; [|cbn; lia].
    destruct (Number_toString_start x Hx) as (c & t & -> & _). cbn. lia.
  - cbn. lia.
  - cbn [SerializeJSONProperty size].
    etransitivity; [|apply enclose_length]. rewrite map_map.
    apply le_n_S, list_sum_le.
    eapply Forall_impl; [|exact IH]. cbn. intros x Hx. apply le_n_S, Hx.
  - cbn [SerializeJSONProperty size].
    etransitivity; [|apply enclose_length]. rewrite map_map.
    apply le_n_S, list_sum_le.
    eapply Forall_impl; [|exact IH]. cbn beta. intros [k x] Hx. cbn [fst snd] in *.
    apply le_n_S. rewrite member_shape. cbn [length].
    rewrite length_app. cbn [length]. rewrite !length_app.
    specialize (Hx (indent ++ gap)). lia.
Qed.

Lemma parse_serialize gap v :
  blank gap -> js_value v = true ->
  JSON_parse (SerializeJSONProperty gap [] v) = Some (written v).
Proof.
  intros Hgap Hd. unfold JSON_parse.
  pose proof (serialize_reads_back gap Hgap v Hd [] []
                (S (length (SerializeJSONProperty gap [] v)))) as H.
  rewrite app_nil_r in H. rewrite H; [reflexivity | constructor | | reflexivity].
  apply Nat.le_le_succ_r, size_le_length.
Qed.

(** [JSON.parse(JSON.stringify(v, null, space))] is what was written of
    [v]. *)
Lemma JSON_parse_stringify_space v space :
  js_value v = true ->
  JSON_parse (JSON_stringify_space v space) = Some (written v).
Proof. apply parse_serialize, blank_spaces. Qed.

(** [JSON.parse(JSON.stringify(v))] is what was written of [v]. *)
Lemma JSON_parse_stringify v :
  js_value v = true -> JSON_parse (JSON_stringify v) = Some (written v).
Proof. apply parse_serialize. constructor. Qed.

Lemma map_id_Forall {A : Type} (f : A -> A) l :
  map f l = l <-> Forall (fun x => f x = x) l.
Proof.
  induction l as [|x l IH]; cbn.
  - split; [constructor | reflexivity].
  - split.
    + intros H. injection H as Hx Hl. constructor; [exact Hx | apply IH; exact Hl].
    + intros H. rewrite (Forall_inv H), (proj2 IH (Forall_inv_tail H)). reflexivity.
Qed.

(** Nothing is lost of a value exactly when its numbers have a literal. *)
Lemma written_same v : written v = v <-> json_numbers v = true.
Proof.
  induction v as [|b|x|s|items IH|props IH] using JSON_ind;
    cbn [written json_numbers]; try (split; reflexivity).
  - destruct x as [[|]|b m e|b|]; cbn; split; congruence.
  - rewrite forallb_forall, <- Forall_forall. split.
    + intros H. injection H as H. apply map_id_Forall in H.
      rewrite Forall_forall in IH, H |- *. intros y Hy.
      apply IH; [exact Hy | apply H; exact Hy].
    + intros H. f_equal. apply map_id_Forall.
      rewrite Forall_forall in IH, H |- *. intros y Hy.
      apply IH; [exact Hy | apply H; exact Hy].
  - rewrite forallb_forall, <- Forall_forall. split.
    + intros H. injection H as H. apply map_id_Forall in H.
      rewrite Forall_forall in IH, H |- *. intros [k y] Hy.
      apply (IH _ Hy). specialize (H _ Hy). cbn [fst snd] in *. congruence.
    + intros H. f_equal. apply map_id_Forall.
      rewrite Forall_forall in IH, H |- *. intros [k y] Hy. cbn [fst snd].
      f_equal. apply (IH _ Hy). apply (H _ Hy).
Qed.

(** *** What the parser yields is a value of the language *)

Lemma digit_value_digit c d : digit_value c = Some d -> is_digit d.
Proof.
  unfold digit_value, is_digit, digit0, digit9.
  destruct (N.leb_spec 48 c) as [Hlo|Hlo]; [|discriminate].
  destruct (N.leb_spec c 57) as [Hhi|Hhi]; [|discriminate]. cbn [andb].
  intros E. injection E as <-. lia.
Qed.

Lemma take_digits_digits t :
  forall ds r, take_digits t = (ds, r) -> Forall is_digit ds.
Proof.
  induction t as [|c t IH]; intros ds r; cbn [take_digits].
  - intros H. injection H as <- _. constructor.
  - destruct (digit_value c) as [d|] eqn:Hd.
    + destruct (take_digits t) as [ds' r'] eqn:Ht.
      intros H. injection H as <- _.
      constructor; [exact (digit_value_digit c d Hd) | exact (IH ds' r' eq_refl)].
    + intros H. injection H as <- _. constructor.
Qed.

Lemma decimal_value_nonneg ds : Forall is_digit ds -> (0 <= decimal_value ds)%Z.
Proof.
  induction 1 as [|d ds Hd _ IH]; [reflexivity|].
  rewrite decimal_value_cons. unfold is_digit in Hd.
  assert (0 <= 10 ^ Z.of_nat (length ds))%Z by (apply Z.pow_nonneg; lia).
  nia.
Qed.

Lemma parse_magnitude_canonical negative t x r :
  parse_magnitude negative t = Some (x, r) -> canonical x = true.
Proof.
  unfold parse_magnitude.
  destruct (take_digits t) as [[|d more] t2] eqn:Hint; [discriminate|].
  destruct ((d =? 0)%Z && negb (is_empty more)); [discriminate|].
  pose proof (take_digits_digits _ _ _ Hint) as Hds.
  assert (Hfs : forall fs t3, take_fraction t2 = Some (fs, t3) -> Forall is_digit fs).
  { intros fs t3. unfold take_fraction. destruct t2 as [|c t2'].
    - intros H. injection H as <- _. constructor.
    - destruct (c =? dot)%N.
      + destruct (take_digits t2') as [[|f fs'] r'] eqn:Hf; [discriminate|].
        intros H. injection H as <- _. exact (take_digits_digits _ _ _ Hf).
      + intros H. injection H as <- _. constructor. }
  destruct (take_fraction t2) as [[fs t3]|]; [|discriminate].
  destruct (take_exponent t3) as [[ex t4]|]; [|discriminate].
  intros H. injection H as <- _.
  apply round_decimal_canonical, decimal_value_nonneg.
  change (Forall is_digit ((d :: more) ++ fs)). apply Forall_app.
  split; [exact Hds | exact (Hfs fs t3 eq_refl)].
Qed.

Lemma parse_number_canonical t x r :
  parse_number t = Some (x, r) -> canonical x = true.
Proof.
  unfold parse_number. destruct (take_minus t) as [negative t1].
  apply parse_magnitude_canonical.
Qed.

(** The order of the names. *)

Lemma key_before_asym a b : key_before a b = true -> key_before b a = false.
Proof.
  unfold key_before.
  destruct (array_index a), (array_index b); try discriminate; try reflexivity.
  intros H. apply Z.ltb_lt in H. apply Z.ltb_ge. lia.
Qed.

Lemma key_before_trans a b c :
  key_before a b = true -> key_before b c = true -> key_before a c = true.
Proof.
  unfold key_before.
  destruct (array_index a), (array_index b), (array_index c);
    try discriminate; try reflexivity.
  intros H1 H2. apply Z.ltb_lt in H1, H2. apply Z.ltb_lt. lia.
Qed.

Lemma keys_obj_replace k v o :
  map fst (obj_replace k v o) = map fst o.
Proof.
  induction o as [|[k' v'] o IH]; [reflexivity|]. cbn [obj_replace].
  destruct (jstring_eqb k k') eqn:E; cbn [map fst].
  - apply jstring_eqb_eq in E. rewrite E. reflexivity.
  - rewrite IH. reflexivity.
Qed.

Lemma keys_obj_insert k v o :
  map fst (obj_insert k v o) = insert_key k (map fst o).
Proof.
  induction o as [|[k' v'] o IH]; [reflexivity|]. cbn [obj_insert map fst insert_key].
  destruct (key_before k k'); cbn [map fst]; [reflexivity|].
  rewrite IH. reflexivity.
Qed.

Lemma existsb_insert_key p k ks :
  existsb p (insert_key k ks) = p k || existsb p ks.
Proof.
  induction ks as [|k' ks IH]; [reflexivity|]. cbn [insert_key].
  destruct (key_before k k'); [reflexivity|]. cbn [existsb].
  rewrite IH. destruct (p k'), (p k); reflexivity.
Qed.

Lemma forallb_insert_key p k ks :
  forallb p (insert_key k ks) = p k && forallb p ks.
Proof.
  induction ks as [|k' ks IH]; [reflexivity|]. cbn [insert_key].
  destruct (key_before k k'); [reflexivity|]. cbn [forallb].
  rewrite IH. destruct (p k'), (p k); reflexivity.
Qed.

Lemma unique_insert_key k ks :
  existsb (jstring_eqb k) ks = false -> unique ks = true ->
  unique (insert_key k ks) = true.
Proof.
  induction ks as [|k' ks IH]; [reflexivity|]. cbn [insert_key existsb unique].
  intros Hk Hu. apply orb_false_iff in Hk as [Hk' Hk].
  apply andb_true_iff in Hu as [Hn Hu].
  destruct (key_before k k').
  - cbn [unique existsb]. rewrite Hk', Hk, Hn, Hu. reflexivity.
  - cbn [unique]. rewrite existsb_insert_key, jstring_eqb_sym, Hk'.
    cbn [orb]. rewrite Hn. cbn [negb andb]. apply IH; assumption.
Qed.

Lemma ordered_insert_key k ks :
  ordered ks = true -> ordered (insert_key k ks) = true.
Proof.
  induction ks as [|k' ks IH]; [reflexivity|]. cbn [insert_key ordered].
  intros Ho. apply andb_true_iff in Ho as [Hl Ho].
  destruct (key_before k k') eqn:Hb.
  - cbn [ordered forallb]. rewrite (key_before_asym _ _ Hb), Hl, Ho.
    cbn [negb andb]. rewrite andb_true_r.
    rewrite forallb_forall in Hl |- *. intros y Hy.
    specialize (Hl y Hy). apply negb_true_iff in Hl. apply negb_true_iff.
    destruct (key_before y k) eqn:Hyk; [|reflexivity].
    rewrite (key_before_trans _ _ _ Hyk Hb) in Hl. discriminate Hl.
  - cbn [ordered]. rewrite forallb_insert_key, Hb, Hl.
    cbn [negb andb]. apply IH. exact Ho.
Qed.

Lemma obj_set_names k v o :
  unique (map fst o) = true -> ordered (map fst o) = true ->
  unique (map fst (obj_set k v o)) = true
  /\ ordered (map fst (obj_set k v o)) = true.
Proof.
  intros Hu Ho. unfold obj_set. destruct (has_key k o) eqn:Hk.
  - rewrite keys_obj_replace. split; assumption.
  - rewrite keys_obj_insert. rewrite has_key_keys in Hk. split.
    + apply unique_insert_key; assumption.
    + apply ordered_insert_key. exact Ho.
Qed.

Lemma obj_set_values (p : JSON -> bool) k v o :
  p v = true -> forallb (fun kv => p (snd kv)) o = true ->
  forallb (fun kv => p (snd kv)) (obj_set k v o) = true.
Proof.
  intros Hv Ho. unfold obj_set. destruct (has_key k o).
  - induction o as [|[k' v'] o IH]; [reflexivity|].
    cbn [forallb snd] in Ho. apply andb_true_iff in Ho as [H1 H2].
    cbn [obj_replace]. destruct (jstring_eqb k k'); cbn [forallb snd].
    + rewrite Hv, H2. reflexivity.
    + rewrite H1. apply IH. exact H2.
  - induction o as [|[k' v'] o IH]; [cbn; rewrite Hv; reflexivity|].
    cbn [forallb snd] in Ho. apply andb_true_iff in Ho as [H1 H2].
    cbn [obj_insert]. destruct (key_before k k'); cbn [forallb snd].
    + rewrite Hv, H1, H2. reflexivity.
    + rewrite H1. apply IH. exact H2.
Qed.

Lemma js_value_members ms :
  forallb (fun kv => js_value (snd kv)) ms = true ->
  js_value (JObject (obj_of_members ms)) = true.
Proof.
  intros Hms. unfold obj_of_members.
  assert (H : forall acc,
             js_value (JObject acc) = true ->
             js_value (JObject (fold_left (fun o kv => obj_set (fst kv) (snd kv) o)
                                  ms acc)) = true).
  { induction ms as [|[k v] ms IH]; intros acc Hacc; [exact Hacc|].
    cbn [forallb snd] in Hms. apply andb_true_iff in Hms as [Hv Hms].
    cbn [fold_left fst snd]. apply (IH Hms).
    cbn [js_value] in Hacc |- *.
    apply andb_true_iff in Hacc as [Hn Hvals].
    apply andb_true_iff in Hn as [Hu Ho].
    destruct (obj_set_names k v acc Hu Ho) as (-> & ->).
    apply (obj_set_values js_value k v acc Hv Hvals). }
  apply H. reflexivity.
Qed.

Lemma lift_cases {A B : Type} (f : A -> B) r b rest :
  lift f r = Some (b, rest) -> exists a, r = Some (a, rest) /\ b = f a.
Proof.
  destruct r as [[a rest']|]; [|discriminate]. cbn [lift].
  intros H. injection H as <- <-. exists a. split; reflexivity.
Qed.

Lemma parse_yields_js_value fuel :
  (forall t v r, parse_value fuel t = Some (v, r) -> js_value v = true)
  /\ (forall t vs r, parse_elements fuel t = Some (vs, r) ->
       forallb js_value vs = true)
  /\ (forall t ms r, parse_members fuel t = Some (ms, r) ->
       forallb (fun kv => js_value (snd kv)) ms = true).
Proof.
  induction fuel as [|fuel (IHv & IHe & IHm)];
    [repeat split; intros; discriminate|].
  split; [|split].
  - intros t v r. cbn [parse_value].
    destruct (skip_ws t) as [|c t']; [discriminate|].
    destruct (c =? code "n")%N.
    { unfold literal. destruct (expect _ _); [|discriminate].
      intros H. injection H as <- _. reflexivity. }
    destruct (c =? code "t")%N.
    { unfold literal. destruct (expect _ _); [|discriminate].
      intros H. injection H as <- _. reflexivity. }
    destruct (c =? code "f")%N.
    { unfold literal. destruct (expect _ _); [|discriminate].
      intros H. injection H as <- _. reflexivity. }
    destruct (c =? dquote)%N.
    { intros H. apply lift_cases in H as (s & _ & ->). reflexivity. }
    destruct (c =? lbracket)%N.
    { destruct (peek rbracket (skip_ws t')).
      - intros H. injection H as <- _. reflexivity.
      - intros H. apply lift_cases in H as (vs & Hvs & ->).
        cbn [js_value]. exact (IHe _ _ _ Hvs). }
    destruct (c =? lbrace)%N.
    { destruct (peek rbrace (skip_ws t')).
      - intros H. injection H as <- _. reflexivity.
      - intros H. apply lift_cases in H as (ms & Hms & ->).
        apply js_value_members. exact (IHm _ _ _ Hms). }
    intros H. apply lift_cases in H as (x & Hx & ->).
    cbn [js_value]. exact (parse_number_canonical _ _ _ Hx).
  - intros t vs r. rewrite parse_elements_step.
    destruct (parse_value fuel t) as [[v r1]|] eqn:Hv; [|discriminate].
    pose proof (IHv _ _ _ Hv) as Hjs.
    destruct (peek comma (skip_ws r1)).
    + intros H. apply lift_cases in H as (vs' & Hvs & ->).
      cbn [forallb]. rewrite Hjs. exact (IHe _ _ _ Hvs).
    + destruct (peek rbracket (skip_ws r1)); [|discriminate].
      intros H. injection H as <- _. cbn [forallb]. rewrite Hjs. reflexivity.
  - intros t ms r. rewrite parse_members_step.
    destruct (peek dquote (skip_ws t)) as [r0|]; [|discriminate].
    destruct (parse_string_body r0) as [[k r1]|]; [|discriminate].
    destruct (peek colon (skip_ws r1)) as [r2|]; [|discriminate].
    destruct (parse_value fuel r2) as [[v r3]|] eqn:Hv; [|discriminate].
    pose proof (IHv _ _ _ Hv) as Hjs.
    destruct (peek comma (skip_ws r3)).
    + intros H. apply lift_cases in H as (ms' & Hms & ->).
      cbn [forallb snd]. rewrite Hjs. exact (IHm _ _ _ Hms).
    + destruct (peek rbrace (skip_ws r3)); [|discriminate].
      intros H. injection H as <- _. cbn [forallb snd]. rewrite Hjs. reflexivity.
Qed.

(** What [JSON.parse] returns is a value of the language. *)
Lemma JSON_parse_js_value t v : JSON_parse t = Some v -> js_value v = true.
Proof.
  unfold JSON_parse.
  destruct (parse_value (S (length t)) t) as [[v' r]|] eqn:Hv; [|discriminate].
  destruct (skip_ws r); [|discriminate].
  intros H. injection H as <-.
  exact (proj1 (parse_yields_js_value (S (length t))) _ _ _ Hv).
Qed.

End JsonFacts.

(** ** Facts about the relay *)

Module RelayFacts.
Import Text Numbers Json Runtime Mcp OpenNeuroMCP Notions.

Lemma set_used_last flags b : set_used (length flags) (flags ++ [b]) = flags ++ [true].
Proof. induction flags as [|f flags IH]; cbn; [reflexivity | rewrite IH; reflexivity]. Qed.

Lemma Response_json_fresh r con out flags net :
  Response_json {| handle := length flags; response := r |}
    {| console := con; outbound := out; bodyUsed := flags ++ [false]; network := net |}
  = match payload r with
    | None =>
        (Throw syntax_error,
         {| console := con; outbound := out; bodyUsed := flags ++ [false]; network := net |})
    | Some p =>
        (match p with
         | Delivered _ (Some v) => Normal v
         | Delivered _ None => Throw syntax_error
         | Broken e => Throw e
         end,
         {| console := con; outbound := out; bodyUsed := flags ++ [true]; network := net |})
    end.
Proof.
  cbv [Response_json consume_body bind is_used disturb ret throw
       handle response bodyUsed console outbound network].
  destruct (payload r) as [p|]; [|reflexivity].
  rewrite nth_middle, set_used_last.
  destruct p as [raw [v|]|e]; reflexivity.
Qed.

Lemma Response_text_used r con out flags net :
  Response_text {| handle := length flags; response := r |}
    {| console := con; outbound := out; bodyUsed := flags ++ [true]; network := net |}
  = (match payload r with
     | None => Normal []
     | Some _ => Throw body_used_error
     end,
     {| console := con; outbound := out; bodyUsed := flags ++ [true]; network := net |}).
Proof.
  cbv [Response_text consume_body bind is_used disturb ret throw
       handle response bodyUsed console outbound network].
  destruct (payload r) as [p|]; [|reflexivity].
  rewrite nth_middle. reflexivity.
Qed.

Lemma Response_text_null r w :
  payload (response r) = None -> Response_text r w = (Normal [], w).
Proof.
  intros H. unfold Response_text, consume_body, bind, ret. rewrite H. reflexivity.
Qed.

(** The relay's result, the request it sends, and the remote side it
    leaves unchanged. *)
Lemma relay_run query variables w :
  let o := network w (length (outbound w)) (graphql_request query variables) in
  let w' := snd (executeOpenNeuroGraphQLQuery query variables w) in
  fst (executeOpenNeuroGraphQLQuery query variables w) = Normal (relayed o)
  /\ outbound w' = outbound w ++ [graphql_request query variables]
  /\ network w' = network w.
Proof.
  destruct w as [con out flags net]. cbv zeta.
  cbn [console outbound bodyUsed network].
  unfold relayed. run.
  destruct (net (length out) (graphql_request query variables)) as [e|r].
  - destruct e; repeat split.
  - rewrite Response_json_fresh.
    destruct (payload r) as [[raw [v|]|e]|] eqn:Hp.
    + destruct (ok r); repeat split.
    + run. rewrite Response_text_used, Hp. repeat split.
    + run. rewrite Response_text_used, Hp. repeat split.
    + run. rewrite Response_text_null by exact Hp. repeat split.
Qed.

Lemma relay_completes query variables w :
  executeOpenNeuroGraphQLQuery query variables w
  = (Normal (relayed (network w (length (outbound w))
                        (graphql_request query variables))),
     snd (executeOpenNeuroGraphQLQuery query variables w)).
Proof.
  destruct (relay_run query variables w) as (H & _).
  rewrite <- H. apply surjective_pairing.
Qed.

(** The callback of the tool: its result and the request it sends. *)
Lemma callback_run query variables w :
  let o := network w (length (outbound w)) (graphql_request query variables) in
  fst (tool_callback query variables w) = Normal (text_block (relayed o))
  /\ outbound (snd (tool_callback query variables w))
     = outbound w ++ [graphql_request query variables].
Proof.
  cbv zeta. destruct w as [con out flags net].
  destruct variables as [vars|];
    cbv [tool_callback bind console_error ret console outbound bodyUsed network];
    rewrite relay_completes; cbn [fst snd];
    (split; [reflexivity|]);
    match goal with
    | |- context [executeOpenNeuroGraphQLQuery ?q ?v ?w1] =>
        destruct (relay_run q v w1) as (_ & H & _); exact H
    end.
Qed.

(** What the schema of the tool hands on for arguments with a string
    [query]. *)
Lemma parsed_arguments props q :
  lookup (js "query") props = Some (JString q) ->
  parsed_shape tool_schema props
  = (js "query", JString q)
      :: match lookup (js "variables") props with
         | Some v => [(js "variables", parsed (z_record z_any) v)]
         | None => []
         end.
Proof.
  intros Hq. unfold parsed_shape, tool_schema. cbn [flat_map fst snd app].
  rewrite Hq. destruct (lookup (js "variables") props) as [v|]; reflexivity.
Qed.

Lemma parsed_query props q :
  lookup (js "query") props = Some (JString q) ->
  arg_query (parsed_shape tool_schema props) = Some q.
Proof.
  intros Hq. rewrite (parsed_arguments props q Hq). reflexivity.
Qed.

(** An input is accepted exactly when there is no issue to report. *)
Lemma accepts_issues t :
  forall path input, accepts t input = is_empty (issues t path input).
Proof.
  induction t as [| |value IH|inner IH|inner IH text]; intros path input;
    cbn [accepts issues].
  - destruct input as [[| | | | |]|]; reflexivity.
  - reflexivity.
  - destruct input as [[| | | | |props]|]; try reflexivity.
    induction props as [|[k v] props IHp]; [reflexivity|].
    cbn [forallb flat_map snd fst]. rewrite IHp, (IH (path ++ [k]) (Some v)).
    destruct (issues value (path ++ [k]) (Some v)); reflexivity.
  - destruct input; [apply IH | reflexivity].
  - apply IH.
Qed.

Lemma accepts_shape_issues shape args :
  accepts_shape shape args = is_empty (shape_issues shape args).
Proof.
  unfold accepts_shape, shape_issues. destruct args as [| | | | |props];
    try reflexivity.
  induction shape as [|[k t] shape IH]; [reflexivity|].
  cbn [forallb flat_map fst snd].
  rewrite IH, (accepts_issues t [js k] (lookup (js k) props)).
  destruct (issues t [js k] (lookup (js k) props)); reflexivity.
Qed.

Lemma init_run w :
  init [] w
  = (Normal [registered_tool],
     {| console := console w ++ [js "OpenNeuro MCP Server initialized."];
        outbound := outbound w; bodyUsed := bodyUsed w; network := network w |}).
Proof. reflexivity. Qed.

(** A call of the registered tool with arguments its schema accepts. *)
Lemma callTool_accepted props q w :
  accepts_shape tool_schema (JObject props) = true ->
  lookup (js "query") props = Some (JString q) ->
  callTool [registered_tool] tool_name (JObject props) w
  = tool_callback q (arg_variables (parsed_shape tool_schema props)) w.
Proof.
  intros Hacc Hq. unfold callTool, registered_tool. cbn [find_tool find name].
  change (String.eqb tool_name tool_name) with true. cbv iota zeta.
  cbn [paramsSchema cb]. rewrite Hacc.
  rewrite (parsed_query props q Hq). unfold try_catch.
  destruct (callback_run q (arg_variables (parsed_shape tool_schema props)) w)
    as (Hc & _).
  destruct (tool_callback q (arg_variables (parsed_shape tool_schema props)) w)
    as [[result|e] w']; [reflexivity | discriminate Hc].
Qed.



End RelayFacts.

(** ** The properties of the specification *)

Module Spec.
Import Text Numbers Json Runtime Mcp OpenNeuroMCP TextNotions Notions.
Import NumberFacts JsonFacts RelayFacts.

(** Claim C1: whatever the query, the variables and the outcome of the
    outbound call (a rejection included), the relay completes normally with
    a JSON value, and so does the callback of the tool; no exception reaches
    the caller. *)
Theorem relay_never_throws query variables w :
  (exists v w', executeOpenNeuroGraphQLQuery query variables w = (Normal v, w'))
  /\ (exists v w', tool_callback query variables w = (Normal (text_block v), w')).
Proof.
  split.
  - eexists. eexists. apply relay_completes.
  - destruct (callback_run query variables w) as (H & _).
    eexists. exists (snd (tool_callback query variables w)).
    rewrite <- H. apply surjective_pairing.
Qed.

(** Claim C2: an invocation, whatever its query (a non-empty one in
    particular), sends exactly one request, a POST to
    https://openneuro.org/crn/graphql whose body is the JSON text of
    [{ query }], with [variables] after it only when they were given: without
    them the body reads back as an object with the single key [query]. A
    second invocation with the same arguments sends the request again and
    its result is what the relay makes of the outcome of that second call:
    nothing is kept from the first. *)
Theorem one_post_per_invocation query variables w :
  let sent := graphql_request query variables in
  let w1 := snd (executeOpenNeuroGraphQLQuery query variables w) in
  let w2 := snd (executeOpenNeuroGraphQLQuery query variables w1) in
  outbound w1 = outbound w ++ [sent]
  /\ outbound (snd (tool_callback query variables w)) = outbound w ++ [sent]
  /\ url sent = "https://openneuro.org/crn/graphql"
  /\ method sent = "POST"
  /\ headers sent
     = [("Content-Type", "application/json");
        ("User-Agent",
         "MCPOpenNeuroServer/0.1.0 (ModelContextProtocol; +https://modelcontextprotocol.io)")]
  /\ body sent
     = JSON_stringify
         (JObject ((js "query", JString query)
                   :: match variables with
                      | Some vars => [(js "variables", JObject vars)]
                      | None => []
                      end))
  /\ JSON_parse (body (graphql_request query None))
     = Some (JObject [(js "query", JString query)])
  /\ outbound w2 = outbound w ++ [sent; sent]
  /\ fst (executeOpenNeuroGraphQLQuery query variables w1)
     = Normal (relayed (network w (S (length (outbound w))) sent)).
Proof.
  cbv zeta.
  destruct (relay_run query variables w) as (_ & Ho & Hn).
  destruct (relay_run query variables
              (snd (executeOpenNeuroGraphQLQuery query variables w)))
    as (Hr2 & Ho2 & _).
  destruct (callback_run query variables w) as (_ & Hc).
  repeat split.
  - exact Ho.
  - exact Hc.
  - destruct variables; reflexivity.
  - apply (JSON_parse_stringify (JObject [(js "query", JString query)])).
    reflexivity.
  - rewrite Ho2, Ho, <- app_assoc. reflexivity.
  - rewrite Hr2, Ho, Hn, length_app, Nat.add_1_r. reflexivity.
Qed.

(** Claim C3, amended: when the outbound call yields a success status and a
    body that is JSON, the relay returns the decoded body as it is, whatever
    it holds (a GraphQL [errors] array included); the text of the tool's
    output is its serialization with two spaces and reads back as what was
    written of the body: the body with [null] for every number that is not
    finite and [0] for negative zero. It reads back as the body itself
    exactly when the body holds no such number. The decoded body is what
    [JSON.parse] makes of the text of the body. *)
Theorem success_body_is_returned_unmodified query variables w r raw responseBody :
  network w (length (outbound w)) (graphql_request query variables) = inr r ->
  ok r = true ->
  payload r = Some (Delivered raw (Some responseBody)) ->
  JSON_parse raw = Some responseBody ->
  fst (executeOpenNeuroGraphQLQuery query variables w) = Normal responseBody
  /\ exists output,
       fst (tool_callback query variables w)
       = Normal {| content := [{| type := "text"; text := output |}];
                   isError := None |}
       /\ output = JSON_stringify_space responseBody 2
       /\ JSON_parse output = Some (written responseBody)
       /\ (JSON_parse output = Some responseBody
           <-> json_numbers responseBody = true).
Proof.
  intros Hnet Hok Hp Hd. apply JSON_parse_js_value in Hd.
  destruct (relay_run query variables w) as (Hr & _).
  destruct (callback_run query variables w) as (Hc & _).
  rewrite Hnet in Hr, Hc. unfold relayed in Hr, Hc. rewrite Hp, Hok in Hr, Hc.
  split; [exact Hr|]. eexists. split; [exact Hc|]. split; [reflexivity|].
  pose proof (JSON_parse_stringify_space responseBody 2 Hd) as Hparse.
  split; [exact Hparse|]. rewrite Hparse, <- written_same.
  split; [intros H; injection H as H; exact H | intros H; rewrite H; reflexivity].
Qed.

(** An instance: status 200 and a body with data and a GraphQL [errors]
    array. *)
Lemma success_body_is_returned_unmodified_witness :
  let w := fresh_world (inr partial_success_response) in
  (network w (length (outbound w)) (graphql_request dataset_query None)
   = inr partial_success_response
   /\ ok partial_success_response = true
   /\ payload partial_success_response
      = Some (Delivered (JSON_stringify partial_success_body)
                (Some partial_success_body))
   /\ JSON_parse (JSON_stringify partial_success_body)
      = Some partial_success_body)
  /\ fst (executeOpenNeuroGraphQLQuery dataset_query None w)
     = Normal partial_success_body
  /\ exists output,
       fst (tool_callback dataset_query None w)
       = Normal {| content := [{| type := "text"; text := output |}];
                   isError := None |}
       /\ output = JSON_stringify_space partial_success_body 2
       /\ JSON_parse output = Some (written partial_success_body)
       /\ (JSON_parse output = Some partial_success_body
           <-> json_numbers partial_success_body = true).
Proof.
  cbv zeta.
  assert (Hparse : JSON_parse (JSON_stringify partial_success_body)
                   = Some partial_success_body) by (vm_compute; reflexivity).
  split; [repeat split; exact Hparse|].
  apply (success_body_is_returned_unmodified dataset_query None
           (fresh_world (inr partial_success_response)) partial_success_response
           (JSON_stringify partial_success_body) partial_success_body);
    [reflexivity | reflexivity | reflexivity | exact Hparse].
Defined.

(** Claim C3 as stated fails: the body [{"x":1e400}] decodes to an object
    that holds Infinity, the text of the tool's output holds [null] in its
    place, and reads back as another value. *)
Lemma overflowing_number_reads_back_as_null :
  ~ (forall query variables w r raw responseBody,
        network w (length (outbound w)) (graphql_request query variables) = inr r ->
        ok r = true ->
        payload r = Some (Delivered raw (Some responseBody)) ->
        JSON_parse raw = Some responseBody ->
        exists output,
          fst (tool_callback query variables w)
          = Normal {| content := [{| type := "text"; text := output |}];
                      isError := None |}
          /\ JSON_parse output = Some responseBody).
Proof.
  intros H.
  assert (Hbody : JSON_parse overflowing_text
                  = Some (JObject [(js "x", JNumber (Infinite false))]))
    by (vm_compute; reflexivity).
  destruct (H dataset_query None (fresh_world (inr overflowing_response))
              overflowing_response overflowing_text
              (JObject [(js "x", JNumber (Infinite false))]) eq_refl eq_refl)
    as (output & Hout & Hparse).
  - unfold overflowing_response. cbn [payload]. rewrite Hbody. reflexivity.
  - exact Hbody.
  - destruct (callback_run dataset_query None
                (fresh_world (inr overflowing_response))) as (Hc & _).
    rewrite Hc in Hout. cbn [fresh_world network] in Hout.
    unfold relayed, overflowing_response in Hout. cbn [payload] in Hout.
    rewrite Hbody in Hout. cbn [ok status] in Hout.
    change ((200 <=? 200)%Z && (200 <=? 299)%Z) with true in Hout.
    cbv iota in Hout. unfold text_block in Hout.
    injection Hout as Hout. rewrite <- Hout in Hparse.
    vm_compute in Hparse. discriminate Hparse.
Qed.

(** Claim C4: when the outbound call yields a status outside 200..299 and a
    body that is JSON, the relay returns the error object with the message
    "OpenNeuro API HTTP Error <status>", the status code and the whole
    decoded body. *)
Theorem http_error_is_enveloped query variables w r raw responseBody :
  network w (length (outbound w)) (graphql_request query variables) = inr r ->
  ok r = false ->
  payload r = Some (Delivered raw (Some responseBody)) ->
  fst (executeOpenNeuroGraphQLQuery query variables w)
  = Normal
      (JObject [(js "errors", JArray [JObject [
         (js "message", JString (js "OpenNeuro API HTTP Error "
                                   ++ Number_toString (of_Z (status r))));
         (js "extensions", JObject [
            (js "statusCode", JNumber (of_Z (status r)));
            (js "responseBody", responseBody)])]])]).
Proof.
  intros Hnet Hok Hp.
  destruct (relay_run query variables w) as (Hr & _).
  rewrite Hnet in Hr. unfold relayed in Hr. rewrite Hp, Hok in Hr. exact Hr.
Qed.

(** An instance: status 500 and the body [{"message":"internal"}]. *)
Lemma http_error_is_enveloped_witness :
  let w := fresh_world (inr internal_error_response) in
  (network w (length (outbound w)) (graphql_request dataset_query None)
   = inr internal_error_response
   /\ ok internal_error_response = false)
  /\ fst (executeOpenNeuroGraphQLQuery dataset_query None w)
     = Normal
         (JObject [(js "errors", JArray [JObject [
            (js "message", JString (js "OpenNeuro API HTTP Error 500"));
            (js "extensions", JObject [
               (js "statusCode", JNumber (of_Z 500));
               (js "responseBody",
                JObject [(js "message", JString (js "internal"))])])]])]).
Proof.
  cbv zeta. split; [split; reflexivity|].
  assert (Htext : js "OpenNeuro API HTTP Error 500"
                  = js "OpenNeuro API HTTP Error "
                      ++ Number_toString (of_Z (status internal_error_response)))
    by (vm_compute; reflexivity).
  rewrite Htext.
  apply (http_error_is_enveloped dataset_query None
           (fresh_world (inr internal_error_response)) internal_error_response
           (JSON_stringify internal_error_body) internal_error_body);
    reflexivity.
Defined.

(** Claim C5: the body [<html>Error</html>] with status 200 is not JSON, and
    the relay does not return the Non-JSON object for it: [response.json()]
    has used the body up, [response.text()] throws, and the outer handler
    returns the client error object instead. *)
Theorem non_json_body_yields_client_error :
  let w := fresh_world (inr html_error_response) in
  JSON_parse (js "<html>Error</html>") = None
  /\ fst (executeOpenNeuroGraphQLQuery dataset_query None w)
     = Normal
         (JObject [(js "errors", JArray [JObject [
            (js "message", JString (js "Body has already been used. It can only be used once. Use tee() first if you need to read it twice."));
            (js "extensions", JObject [(js "clientError", JBool true)])]])])
  /\ fst (executeOpenNeuroGraphQLQuery dataset_query None w)
     <> Normal (non_json_envelope 200 (js "<html>Error</html>")).
Proof.
  cbv zeta. split; [vm_compute; reflexivity|].
  assert (H : fst (executeOpenNeuroGraphQLQuery dataset_query None
                     (fresh_world (inr html_error_response)))
              = Normal (client_error_envelope (error_text body_used_error))).
  { destruct (relay_run dataset_query None (fresh_world (inr html_error_response)))
      as (Hr & _). exact Hr. }
  split; [exact H|]. rewrite H. discriminate.
Qed.

(** Claim C6, amended: when the outbound call is rejected, the relay
    returns the object whose message is the message of the thrown error
    (the string of the thrown value when it is not an [Error]) and whose
    extensions are [{ clientError: true }]; the tool's output is its
    serialization and nothing is thrown. *)
Theorem transport_failure_is_enveloped query variables w e :
  network w (length (outbound w)) (graphql_request query variables) = inl e ->
  fst (executeOpenNeuroGraphQLQuery query variables w)
  = Normal
      (JObject [(js "errors", JArray [JObject [
         (js "message", JString (error_text e));
         (js "extensions", JObject [(js "clientError", JBool true)])]])])
  /\ fst (tool_callback query variables w)
     = Normal (text_block (client_error_envelope (error_text e))).
Proof.
  intros Hnet.
  destruct (relay_run query variables w) as (Hr & _).
  destruct (callback_run query variables w) as (Hc & _).
  rewrite Hnet in Hr, Hc. split; [exact Hr | exact Hc].
Qed.

(** An instance: the call is rejected with a TypeError, "fetch failed". *)
Lemma transport_failure_is_enveloped_witness :
  let e := ErrorObject "TypeError" (js "fetch failed") in
  let w := fresh_world (inl e) in
  network w (length (outbound w)) (graphql_request dataset_query None) = inl e
  /\ fst (executeOpenNeuroGraphQLQuery dataset_query None w)
     = Normal
         (JObject [(js "errors", JArray [JObject [
            (js "message", JString (js "fetch failed"));
            (js "extensions", JObject [(js "clientError", JBool true)])]])])
  /\ fst (tool_callback dataset_query None w)
     = Normal (text_block (client_error_envelope (js "fetch failed"))).
Proof.
  cbv zeta. split; [reflexivity|].
  apply (transport_failure_is_enveloped dataset_query None
           (fresh_world (inl (ErrorObject "TypeError" (js "fetch failed"))))
           (ErrorObject "TypeError" (js "fetch failed"))).
  reflexivity.
Defined.

(** Claim C6 as stated fails: an error thrown with an empty message gives an
    empty message in the output. *)
Lemma transport_failure_message_may_be_empty :
  ~ (forall query variables w e,
        network w (length (outbound w)) (graphql_request query variables) = inl e ->
        exists m, m <> []
          /\ fst (executeOpenNeuroGraphQLQuery query variables w)
             = Normal (client_error_envelope m)).
Proof.
  intros H.
  destruct (H dataset_query None (fresh_world (inl (ErrorObject "TypeError" [])))
              (ErrorObject "TypeError" []) eq_refl) as (m & Hm & Hr).
  destruct (relay_run dataset_query None
              (fresh_world (inl (ErrorObject "TypeError" [])))) as (Hr' & _).
  rewrite Hr' in Hr. cbn [fresh_world network relayed error_text] in Hr.
  unfold client_error_envelope in Hr.
  injection Hr as Hr. apply Hm. symmetry. exact Hr.
Qed.



(** Claim C8: a request whose path is [/sse] or starts with [/sse/] is
    handed to the SSE transport mounted at [/sse]; any other path is
    answered with status 404 and a text/plain body that mentions [/sse]. *)
Theorem other_paths_are_not_found serveSSE request w :
  (Worker.pathname request <> "/sse" ->
   startsWith (Worker.pathname request) "/sse/" = false ->
   exists reply,
     fst (Worker.fetch serveSSE request w) = Normal reply
     /\ Worker.status reply = 404%Z
     /\ Worker.headers reply = [("Content-Type", "text/plain")]
     /\ includes (Worker.body reply) "/sse" = true)
  /\ (Worker.pathname request = "/sse"
      \/ startsWith (Worker.pathname request) "/sse/" = true ->
      Worker.fetch serveSSE request w = serveSSE "/sse" request w).
Proof.
  unfold Worker.fetch. split.
  - intros Hne Hsub. apply String.eqb_neq in Hne. rewrite Hne, Hsub.
    eexists. split; [reflexivity|]. repeat split.
  - intros [Heq|Hsub].
    + apply String.eqb_eq in Heq. rewrite Heq. reflexivity.
    + rewrite Hsub, orb_true_r. reflexivity.
Qed.

(** Instances: the path [/ssex] is not found, [/sse/message] is handed
    over. *)
Lemma other_paths_are_not_found_witness :
  let sse := fun (_ : string) (_ : Worker.Request) =>
               ret {| Worker.status := 200%Z;
                      Worker.headers := [("Content-Type", "text/event-stream")];
                      Worker.body := "" |} in
  let w := fresh_world (inl (OtherValue [])) in
  (exists reply,
     fst (Worker.fetch sse {| Worker.pathname := "/ssex" |} w) = Normal reply
     /\ Worker.status reply = 404%Z
     /\ Worker.headers reply = [("Content-Type", "text/plain")]
     /\ includes (Worker.body reply) "/sse" = true)
  /\ Worker.fetch sse {| Worker.pathname := "/sse/message" |} w
     = sse "/sse" {| Worker.pathname := "/sse/message" |} w.
Proof.
  cbv zeta. split.
  - apply (proj1 (other_paths_are_not_found _ {| Worker.pathname := "/ssex" |} _));
      [discriminate | reflexivity].
  - apply (proj2 (other_paths_are_not_found
                    (fun _ _ =>
                       ret {| Worker.status := 200%Z;
                              Worker.headers := [("Content-Type", "text/event-stream")];
                              Worker.body := "" |})
                    {| Worker.pathname := "/sse/message" |}
                    (fresh_world (inl (OtherValue []))))).
    right. reflexivity.
Defined.




(** Claim C10: when the body of the response is there and cannot be decoded
    (it is not JSON, or reading it fails), [response.json()] has used it up,
    the [response.text()] of the handler throws the TypeError of a used body,
    and the relay returns the client error object with that message and
    [clientError: true], not the Non-JSON object, and throws nothing. *)
Theorem unreadable_body_yields_client_error query variables w r p :
  network w (length (outbound w)) (graphql_request query variables) = inr r ->
  payload r = Some p ->
  (forall raw v, p <> Delivered raw (Some v)) ->
  let object := {| handle := length (bodyUsed w); response := r |} in
  let fetched := {| console := console w; outbound := outbound w;
                    bodyUsed := bodyUsed w ++ [false]; network := network w |} in
  (exists e, fst (Response_json object fetched) = Throw e)
  /\ fst (Response_text object (snd (Response_json object fetched)))
     = Throw body_used_error
  /\ fst (executeOpenNeuroGraphQLQuery query variables w)
     = Normal
         (JObject [(js "errors", JArray [JObject [
            (js "message", JString (error_text body_used_error));
            (js "extensions", JObject [(js "clientError", JBool true)])]])])
  /\ fst (tool_callback query variables w)
     = Normal (text_block (client_error_envelope (error_text body_used_error))).
Proof.
  intros Hnet Hp Hbad. cbv zeta.
  rewrite Response_json_fresh, Hp. cbn [fst snd].
  rewrite Response_text_used, Hp. cbn [fst].
  destruct (relay_run query variables w) as (Hr & _).
  destruct (callback_run query variables w) as (Hc & _).
  rewrite Hnet in Hr, Hc. unfold relayed in Hr, Hc. rewrite Hp in Hr, Hc.
  destruct p as [raw [v|]|e];
    [exfalso; apply (Hbad raw v); reflexivity | |];
    (split; [eexists; reflexivity|]); (split; [reflexivity|]);
    (split; [exact Hr | exact Hc]).
Qed.

(** An instance: status 200 and the body [<html>Error</html>]. *)
Lemma unreadable_body_yields_client_error_witness :
  let w := fresh_world (inr html_error_response) in
  let object := {| handle := 0; response := html_error_response |} in
  let fetched := {| console := []; outbound := []; bodyUsed := [false];
                    network := network w |} in
  (network w (length (outbound w)) (graphql_request dataset_query None)
   = inr html_error_response
   /\ payload html_error_response
      = Some (Delivered (js "<html>Error</html>") None)
   /\ forall raw v, Delivered (js "<html>Error</html>") None <> Delivered raw (Some v))
  /\ (exists e, fst (Response_json object fetched) = Throw e)
  /\ fst (Response_text object (snd (Response_json object fetched)))
     = Throw body_used_error
  /\ fst (executeOpenNeuroGraphQLQuery dataset_query None w)
     = Normal
         (JObject [(js "errors", JArray [JObject [
            (js "message", JString (error_text body_used_error));
            (js "extensions", JObject [(js "clientError", JBool true)])]])])
  /\ fst (tool_callback dataset_query None w)
     = Normal (text_block (client_error_envelope (error_text body_used_error))).
Proof.
  cbv zeta. split; [split; [reflexivity | split; [reflexivity | discriminate]]|].
  apply (unreadable_body_yields_client_error dataset_query None
           (fresh_world (inr html_error_response)) html_error_response
           (Delivered (js "<html>Error</html>") None));
    [reflexivity | reflexivity | discriminate].
Defined.

End Spec.

(** ** Further behaviour of the relay, of the tool and of the handler *)

Module Behaviour.
Import Text Numbers Json Runtime Mcp OpenNeuroMCP TextNotions Notions.
Import NumberFacts JsonFacts RelayFacts.

(** The objects the relay builds are values of the language. *)
Lemma js_value_relayed o :
  (forall r raw v,
      o = inr r -> payload r = Some (Delivered raw (Some v)) ->
      js_value v = true) ->
  js_value (relayed o) = true.
Proof.
  intros H. destruct o as [e|r]; [reflexivity|]. cbn [relayed].
  destruct (payload r) as [[raw [v|]|e]|] eqn:Hp; try reflexivity.
  - pose proof (H r raw v eq_refl Hp) as Hv.
    destruct (ok r); [exact Hv|].
    unfold http_error_envelope.
    cbn [js_value map fst snd forallb].
    rewrite canonical_of_Z, Hv. reflexivity.
  - unfold non_json_envelope.
    cbn [js_value map fst snd forallb].
    rewrite canonical_of_Z. reflexivity.
Qed.

Lemma request_body_parses query vars :
  js_value (JObject vars) = true ->
  JSON_parse (body (graphql_request query (Some vars)))
  = Some (JObject [(js "query", JString query);
                   (js "variables", written (JObject vars))]).
Proof.
  intros Hd.
  change (body (graphql_request query (Some vars)))
    with (JSON_stringify (JObject [(js "query", JString query);
                                   (js "variables", JObject vars)])).
  rewrite JSON_parse_stringify; [reflexivity|].
  cbn [js_value map fst snd forallb] in Hd |- *. rewrite Hd. reflexivity.
Qed.

(** X1: the body of the outbound request, read as JSON, is the object with
    the query as it was given and, after it, what was written of the
    variables (an empty mapping included): the variables with [null] for
    every number that is not finite and [0] for negative zero. It is
    [{ query, variables }] itself exactly when the variables hold no such
    number. *)
Theorem request_body_reads_back query vars :
  js_value (JObject vars) = true ->
  JSON_parse (body (graphql_request query (Some vars)))
  = Some (JObject [(js "query", JString query);
                   (js "variables", written (JObject vars))])
  /\ (JSON_parse (body (graphql_request query (Some vars)))
      = Some (JObject [(js "query", JString query);
                       (js "variables", JObject vars)])
      <-> json_numbers (JObject vars) = true).
Proof.
  intros Hd. rewrite (request_body_parses query vars Hd).
  split; [reflexivity|]. rewrite <- written_same. split.
  - intros H. congruence.
  - intros H. rewrite H. reflexivity.
Qed.

Lemma request_body_reads_back_witness :
  js_value (JObject dataset_variables) = true
  /\ JSON_parse (body (graphql_request dataset_query (Some dataset_variables)))
     = Some (JObject [(js "query", JString dataset_query);
                      (js "variables", JObject dataset_variables)])
  /\ JSON_parse (body (graphql_request dataset_query (Some [])))
     = Some (JObject [(js "query", JString dataset_query);
                      (js "variables", JObject [])]).
Proof.
  split; [reflexivity|]. split.
  - apply (proj2 (request_body_reads_back dataset_query dataset_variables eq_refl)).
    reflexivity.
  - apply (proj1 (request_body_reads_back dataset_query [] eq_refl)).
Defined.

(** X2: when the response has no body at all (as with status 204),
    [response.json()] fails, [response.text()] gives the empty string, and
    the relay returns the Non-JSON object with the status and an empty
    [responseText]. *)
Theorem null_body_is_reported_as_non_json query variables w r :
  network w (length (outbound w)) (graphql_request query variables) = inr r ->
  payload r = None ->
  fst (executeOpenNeuroGraphQLQuery query variables w)
  = Normal
      (JObject [(js "errors", JArray [JObject [
         (js "message", JString (js "OpenNeuro API Error "
                                   ++ Number_toString (of_Z (status r))
                                   ++ js ": Non-JSON response."));
         (js "extensions", JObject [
            (js "statusCode", JNumber (of_Z (status r)));
            (js "responseText", JString [])])]])]).
Proof.
  intros Hnet Hp.
  destruct (relay_run query variables w) as (Hr & _).
  rewrite Hnet in Hr. unfold relayed in Hr. rewrite Hp in Hr. exact Hr.
Qed.

Lemma null_body_is_reported_as_non_json_witness :
  let w := fresh_world (inr no_content_response) in
  (network w (length (outbound w)) (graphql_request dataset_query None)
   = inr no_content_response
   /\ payload no_content_response = None)
  /\ fst (executeOpenNeuroGraphQLQuery dataset_query None w)
     = Normal
         (JObject [(js "errors", JArray [JObject [
            (js "message", JString (js "OpenNeuro API Error 204: Non-JSON response."));
            (js "extensions", JObject [
               (js "statusCode", JNumber (of_Z 204));
               (js "responseText", JString [])])]])]).
Proof.
  cbv zeta. split; [split; reflexivity|].
  assert (Htext : js "OpenNeuro API Error 204: Non-JSON response."
                  = js "OpenNeuro API Error "
                      ++ Number_toString (of_Z (status no_content_response))
                      ++ js ": Non-JSON response.")
    by (vm_compute; reflexivity).
  rewrite Htext.
  apply (null_body_is_reported_as_non_json dataset_query None
           (fresh_world (inr no_content_response)) no_content_response);
    reflexivity.
Defined.

(** X3: whatever the outcome of the outbound call, the text of the tool's
    output is JSON and reads back as what was written of the value the relay
    returned, and as that value itself exactly when it holds no number that
    is not finite and no negative zero; the decoded body of the response,
    when there is one, is what [JSON.parse] makes of its text. *)
Theorem tool_output_reads_back query variables w :
  (forall r raw v,
      network w (length (outbound w)) (graphql_request query variables) = inr r ->
      payload r = Some (Delivered raw (Some v)) ->
      JSON_parse raw = Some v) ->
  exists result output,
    fst (executeOpenNeuroGraphQLQuery query variables w) = Normal result
    /\ fst (tool_callback query variables w)
       = Normal {| content := [{| type := "text"; text := output |}];
                   isError := None |}
    /\ JSON_parse output = Some (written result)
    /\ (JSON_parse output = Some result <-> json_numbers result = true).
Proof.
  intros Hd.
  destruct (relay_run query variables w) as (Hr & _).
  destruct (callback_run query variables w) as (Hc & _).
  eexists. eexists. split; [exact Hr|]. split; [exact Hc|].
  match goal with
  | |- JSON_parse (JSON_stringify_space ?v 2) = _ /\ _ =>
      assert (Hparse : JSON_parse (JSON_stringify_space v 2) = Some (written v))
  end.
  { apply JSON_parse_stringify_space, js_value_relayed.
    intros r raw v Hr' Hp. apply (JSON_parse_js_value raw). apply (Hd r raw v Hr' Hp). }
  split; [exact Hparse|]. rewrite Hparse, <- written_same. split.
  - intros H. injection H as H. exact H.
  - intros H. rewrite H. reflexivity.
Qed.

Lemma tool_output_reads_back_witness :
  let w := fresh_world (inr internal_error_response) in
  (forall r raw v,
      network w (length (outbound w)) (graphql_request dataset_query None) = inr r ->
      payload r = Some (Delivered raw (Some v)) ->
      JSON_parse raw = Some v)
  /\ exists result output,
       fst (executeOpenNeuroGraphQLQuery dataset_query None w) = Normal result
       /\ fst (tool_callback dataset_query None w)
          = Normal {| content := [{| type := "text"; text := output |}];
                      isError := None |}
       /\ JSON_parse output = Some (written result)
       /\ (JSON_parse output = Some result <-> json_numbers result = true).
Proof.
  cbv zeta.
  assert (H : forall r raw v,
             network (fresh_world (inr internal_error_response))
               (length (outbound (fresh_world (inr internal_error_response))))
               (graphql_request dataset_query None) = inr r ->
             payload r = Some (Delivered raw (Some v)) ->
             JSON_parse raw = Some v).
  { intros r raw v Hr Hp. injection Hr as <-. injection Hp as <- <-.
    vm_compute. reflexivity. }
  split; [exact H|].
  apply (tool_output_reads_back dataset_query None
           (fresh_world (inr internal_error_response)) H).
Defined.

(** X4: the value the relay returns is the decoded body of a response with
    a success status, or an object of one shape: a single [errors] array
    with one element, made of a [message] string and an [extensions] object
    that starts with [clientError: true] or with the remote [statusCode]. *)
Theorem relay_result_shape query variables w :
  let o := network w (length (outbound w)) (graphql_request query variables) in
  (exists r raw responseBody,
      o = inr r /\ ok r = true
      /\ payload r = Some (Delivered raw (Some responseBody))
      /\ fst (executeOpenNeuroGraphQLQuery query variables w) = Normal responseBody)
  \/ (exists message extensions,
        fst (executeOpenNeuroGraphQLQuery query variables w)
        = Normal (JObject [(js "errors", JArray [JObject [
                    (js "message", JString message);
                    (js "extensions", JObject extensions)]])])
        /\ (extensions = [(js "clientError", JBool true)]
            \/ exists r more,
                 o = inr r
                 /\ extensions
                    = (js "statusCode", JNumber (of_Z (status r))) :: more)).
Proof.
  cbv zeta.
  destruct (relay_run query variables w) as (Hr & _). rewrite Hr. clear Hr.
  destruct (network w (length (outbound w)) (graphql_request query variables))
    as [e|r]; cbn [relayed].
  - right. eexists. eexists. split; [reflexivity | left; reflexivity].
  - destruct (payload r) as [[raw [v|]|e]|] eqn:Hp.
    + destruct (ok r) eqn:Hok.
      * left. exists r, raw, v. repeat split; assumption.
      * right. eexists. eexists. split; [reflexivity|].
        right. eexists. eexists. split; reflexivity.
    + right. eexists. eexists. split; [reflexivity | left; reflexivity].
    + right. eexists. eexists. split; [reflexivity | left; reflexivity].
    + right. eexists. eexists. split; [reflexivity|].
      right. eexists. eexists. split; reflexivity.
Qed.

(** X5: the relay keeps nothing between calls: in two worlds that differ
    in what was logged, sent and read before, the same outcome of the
    outbound call gives the same result and the same tool output. *)
Theorem relay_is_stateless query variables w1 w2 :
  network w1 (length (outbound w1)) (graphql_request query variables)
  = network w2 (length (outbound w2)) (graphql_request query variables) ->
  fst (executeOpenNeuroGraphQLQuery query variables w1)
  = fst (executeOpenNeuroGraphQLQuery query variables w2)
  /\ fst (tool_callback query variables w1) = fst (tool_callback query variables w2).
Proof.
  intros H.
  destruct (relay_run query variables w1) as (Hr1 & _).
  destruct (relay_run query variables w2) as (Hr2 & _).
  destruct (callback_run query variables w1) as (Hc1 & _).
  destruct (callback_run query variables w2) as (Hc2 & _).
  rewrite Hr1, Hr2, Hc1, Hc2, H. split; reflexivity.
Qed.

Lemma relay_is_stateless_witness :
  let w1 := fresh_world (inr partial_success_response) in
  let w2 := {| console := [js "earlier line"];
               outbound := [graphql_request (js "{ earlier }") None];
               bodyUsed := [true];
               network := fun n _ =>
                 match n with
                 | 1 => inr partial_success_response
                 | _ => inr html_error_response
                 end |} in
  network w1 (length (outbound w1)) (graphql_request dataset_query None)
  = network w2 (length (outbound w2)) (graphql_request dataset_query None)
  /\ fst (executeOpenNeuroGraphQLQuery dataset_query None w1)
     = fst (executeOpenNeuroGraphQLQuery dataset_query None w2)
  /\ fst (tool_callback dataset_query None w1)
     = fst (tool_callback dataset_query None w2).
Proof.
  cbv zeta. split; [reflexivity|].
  apply (relay_is_stateless dataset_query None
           (fresh_world (inr partial_success_response))
           {| console := [js "earlier line"];
              outbound := [graphql_request (js "{ earlier }") None];
              bodyUsed := [true];
              network := fun n _ =>
                match n with
                | 1 => inr partial_success_response
                | _ => inr html_error_response
                end |}).
  reflexivity.
Defined.

(** The log. *)

Lemma relay_console query variables w :
  let o := network w (length (outbound w)) (graphql_request query variables) in
  exists lines,
    console (snd (executeOpenNeuroGraphQLQuery query variables w))
    = console w
        ++ js "Making GraphQL request to: https://openneuro.org/crn/graphql"
           :: lines
    /\ 1 <= length lines <= 2
    /\ match o with
       | inl e =>
           lines = [js "Client-side error during OpenNeuro GraphQL request: "
                      ++ error_text e]
       | inr r =>
           exists more,
             lines = (js "OpenNeuro API response status: "
                        ++ Number_toString (of_Z (status r))) :: more
       end.
Proof.
  destruct w as [con out flags net]. cbv zeta.
  cbn [console outbound bodyUsed network]. run.
  change (js "Making GraphQL request to: " ++ js OPENNEURO_GRAPHQL_ENDPOINT)
    with (js "Making GraphQL request to: https://openneuro.org/crn/graphql").
  destruct (net (length out) (graphql_request query variables)) as [e|r].
  - cbv [snd]. run.
    eexists. split; [rewrite <- app_assoc; reflexivity|].
    split; [cbn; lia | reflexivity].
  - rewrite Response_json_fresh.
    destruct (payload r) as [[raw [v|]|e]|] eqn:Hp;
      [destruct (ok r); cbv [negb snd]; run
      | run; rewrite Response_text_used, Hp; cbv [snd]; run
      | run; rewrite Response_text_used, Hp; cbv [snd]; run
      | run; rewrite Response_text_null by exact Hp; cbv [snd]; run ];
      (eexists; split; [rewrite <- !app_assoc; reflexivity|]);
      (split; [cbn; lia|]); eexists; reflexivity.
Qed.

(** X6: an invocation of the relay keeps the lines logged before it and adds
    two or three: first the endpoint, then the status of the response or,
    when the call was rejected, the client error with the message of the
    thrown error. *)
Theorem relay_logs_endpoint_then_outcome query variables w :
  let o := network w (length (outbound w)) (graphql_request query variables) in
  exists lines,
    console (snd (executeOpenNeuroGraphQLQuery query variables w))
    = console w
        ++ js "Making GraphQL request to: https://openneuro.org/crn/graphql"
           :: lines
    /\ 1 <= length lines <= 2
    /\ match o with
       | inl e =>
           lines = [js "Client-side error during OpenNeuro GraphQL request: "
                      ++ error_text e]
       | inr r =>
           exists more,
             lines = (js "OpenNeuro API response status: "
                        ++ Number_toString (of_Z (status r))) :: more
       end.
Proof. apply relay_console. Qed.

Lemma slice0_length n (s : jstring) : length (slice0 n s) <= n.
Proof. unfold slice0. rewrite length_firstn. lia. Qed.

Lemma callback_world query variables w :
  snd (tool_callback query variables w)
  = snd (executeOpenNeuroGraphQLQuery query variables
           {| console :=
                console w
                  ++ (js "Executing openneuro_graphql_query with query: "
                        ++ slice0 200 query ++ js "...")
                  :: match variables with
                     | Some vars =>
                         [js "With variables: "
                            ++ slice0 150 (JSON_stringify (JObject vars))
                            ++ js "..."]
                     | None => []
                     end;
              outbound := outbound w;
              bodyUsed := bodyUsed w;
              network := network w |}).
Proof.
  destruct w as [con out flags net].
  destruct variables as [vars|];
    cbv [tool_callback bind console_error ret console outbound bodyUsed network];
    rewrite relay_completes; cbn [snd]; rewrite <- ?app_assoc; reflexivity.
Qed.

(** X7: the callback of the tool logs a bounded preview of its input
    before the relay runs: one line with the first 200 code units of the
    query at most, and, only when variables are given, one line with the
    first 150 code units of their JSON text at most; 249 and 169 code units
    at most, whatever the size of the input. The relay's two or three lines
    follow. *)
Theorem callback_logs_bounded_preview query variables w :
  exists query_line variables_lines relay_lines,
    console (snd (tool_callback query variables w))
    = console w ++ query_line :: variables_lines ++ relay_lines
    /\ query_line = js "Executing openneuro_graphql_query with query: "
                      ++ slice0 200 query ++ js "..."
    /\ length query_line <= 249
    /\ variables_lines
       = match variables with
         | Some vars =>
             [js "With variables: "
                ++ slice0 150 (JSON_stringify (JObject vars)) ++ js "..."]
         | None => []
         end
    /\ Forall (fun line => length line <= 169) variables_lines
    /\ 2 <= length relay_lines <= 3.
Proof.
  rewrite callback_world.
  match goal with
  | |- context [executeOpenNeuroGraphQLQuery query variables ?w1] =>
      destruct (relay_console query variables w1) as (lines & Hc & Hlen & _)
  end.
  rewrite Hc. cbn [console].
  exists (js "Executing openneuro_graphql_query with query: "
            ++ slice0 200 query ++ js "..."),
         match variables with
         | Some vars =>
             [js "With variables: "
                ++ slice0 150 (JSON_stringify (JObject vars)) ++ js "..."]
         | None => []
         end,
         (js "Making GraphQL request to: https://openneuro.org/crn/graphql"
          :: lines).
  split.
  { rewrite <- app_assoc. reflexivity. }
  split; [reflexivity|]. split.
  { rewrite !length_app. pose proof (slice0_length 200 query).
    change (length (js "Executing openneuro_graphql_query with query: ")) with 46.
    change (length (js "...")) with 3. lia. }
  split; [reflexivity|]. split.
  { destruct variables as [vars|]; constructor; [|constructor].
    rewrite !length_app.
    pose proof (slice0_length 150 (JSON_stringify (JObject vars))).
    change (length (js "With variables: ")) with 16.
    change (length (js "...")) with 3. lia. }
  cbn [length]. lia.
Qed.

(** X8: for a path that is not [/sse] and does not start with [/sse/], the
    handler does not involve the SSE transport at all: whatever the
    transport, the reply and the world after it are the same; no request
    goes out and one line is logged, naming the path. *)
Theorem not_found_ignores_the_transport serveSSE1 serveSSE2 request w :
  Worker.pathname request <> "/sse" ->
  startsWith (Worker.pathname request) "/sse/" = false ->
  Worker.fetch serveSSE1 request w = Worker.fetch serveSSE2 request w
  /\ outbound (snd (Worker.fetch serveSSE1 request w)) = outbound w
  /\ console (snd (Worker.fetch serveSSE1 request w))
     = console w
         ++ [js ("OpenNeuro MCP Server. Requested path " ++ Worker.pathname request
                 ++ " not found. Listening for SSE on /sse.")].
Proof.
  intros Hne Hsub. apply String.eqb_neq in Hne.
  unfold Worker.fetch. rewrite Hne, Hsub. cbn [orb].
  repeat split.
Qed.

Lemma not_found_ignores_the_transport_witness :
  let sse1 := fun (_ : string) (_ : Worker.Request) =>
                ret {| Worker.status := 200%Z; Worker.headers := [];
                       Worker.body := "stream" |} in
  let sse2 := fun (_ : string) (_ : Worker.Request) =>
                throw (ErrorObject "Error" (js "no transport")) in
  let request := {| Worker.pathname := "/SSE" |} in
  let w := fresh_world (inl (OtherValue [])) in
  (Worker.pathname request <> "/sse"
   /\ startsWith (Worker.pathname request) "/sse/" = false)
  /\ Worker.fetch sse1 request w = Worker.fetch sse2 request w
  /\ outbound (snd (Worker.fetch sse1 request w)) = outbound w
  /\ console (snd (Worker.fetch sse1 request w))
     = console w
         ++ [js ("OpenNeuro MCP Server. Requested path " ++ Worker.pathname request
                 ++ " not found. Listening for SSE on /sse.")].
Proof.
  cbv zeta. split; [split; [discriminate | reflexivity]|].
  apply (not_found_ignores_the_transport
           (fun _ _ => ret {| Worker.status := 200%Z; Worker.headers := [];
                              Worker.body := "stream" |})
           (fun _ _ => throw (ErrorObject "Error" (js "no transport")))
           {| Worker.pathname := "/SSE" |}
           (fresh_world (inl (OtherValue []))));
    [discriminate | reflexivity].
Defined.

(** What the schema hands on of a record. *)

Lemma parsed_any_entries (props : list (jstring * JSON)) :
  map (fun kv => (fst kv, parsed z_any (snd kv))) props = props.
Proof.
  induction props as [|[k v] props IH]; [reflexivity|].
  cbn [map fst snd]. rewrite IH. reflexivity.
Qed.

Lemma existsb_filter {A : Type} (p f : A -> bool) l :
  existsb p l = false -> existsb p (filter f l) = false.
Proof.
  induction l as [|x l IH]; cbn; [reflexivity|].
  intros H. apply orb_false_iff in H as [Hx Hl].
  destruct (f x); cbn; [rewrite Hx|]; apply IH; exact Hl.
Qed.

Lemma forallb_filter {A : Type} (p f : A -> bool) l :
  forallb p l = true -> forallb p (filter f l) = true.
Proof.
  induction l as [|x l IH]; cbn; [reflexivity|].
  intros H. apply andb_true_iff in H as [Hx Hl].
  destruct (f x); cbn; [rewrite Hx|]; apply IH; exact Hl.
Qed.

Lemma keys_filter (f : jstring -> bool) (props : list (jstring * JSON)) :
  map fst (filter (fun kv => f (fst kv)) props) = filter f (map fst props).
Proof.
  induction props as [|[k v] props IH]; [reflexivity|].
  cbn [map filter fst]. destruct (f k); cbn [map fst]; rewrite IH; reflexivity.
Qed.

Lemma unique_filter f ks : unique ks = true -> unique (filter f ks) = true.
Proof.
  induction ks as [|k ks IH]; [reflexivity|]. cbn [unique filter].
  intros H. apply andb_true_iff in H as [Hk Hu]. apply negb_true_iff in Hk.
  destruct (f k); [|apply IH; exact Hu].
  cbn [unique]. rewrite existsb_filter by exact Hk. apply IH. exact Hu.
Qed.

Lemma ordered_filter f ks : ordered ks = true -> ordered (filter f ks) = true.
Proof.
  induction ks as [|k ks IH]; [reflexivity|]. cbn [ordered filter].
  intros H. apply andb_true_iff in H as [Hk Ho].
  destruct (f k); [|apply IH; exact Ho].
  cbn [ordered]. rewrite forallb_filter by exact Hk. apply IH. exact Ho.
Qed.

Lemma js_value_kept vars :
  js_value (JObject vars) = true ->
  js_value (JObject (filter kept_key vars)) = true.
Proof.
  cbn [js_value]. intros H.
  apply andb_true_iff in H as [H Hv]. apply andb_true_iff in H as [Hu Ho].
  unfold kept_key.
  rewrite (keys_filter (fun k => negb (jstring_eqb k (js "__proto__"))) vars).
  rewrite unique_filter, ordered_filter by assumption.
  apply forallb_filter. exact Hv.
Qed.

Lemma parsed_record vars :
  js_value (JObject vars) = true ->
  parsed (z_record z_any) (JObject vars) = JObject (filter kept_key vars).
Proof.
  intros H. apply js_value_kept in H. cbn [js_value] in H.
  apply andb_true_iff in H as [H _]. apply andb_true_iff in H as [Hu Ho].
  change (parsed (z_record z_any) (JObject vars))
    with (JObject (obj_of_members
                     (map (fun kv => (fst kv, parsed z_any (snd kv)))
                        (filter kept_key vars)))).
  rewrite (parsed_any_entries (filter kept_key vars)).
  rewrite obj_of_members_ordered by assumption. reflexivity.
Qed.

(** X9: for arguments the schema accepts, the request sent through the
    registered tool carries the given query and the given variables without
    a key [__proto__], which the schema leaves out, and nothing else: its
    body, read as JSON, is [{ query }] or [{ query, variables }] with what
    was written of these variables, whatever other properties the arguments
    hold. *)
Theorem accepted_arguments_reach_the_request props q w0 w :
  accepts_shape tool_schema (JObject props) = true ->
  lookup (js "query") props = Some (JString q) ->
  (forall vars,
      lookup (js "variables") props = Some (JObject vars) ->
      js_value (JObject vars) = true) ->
  exists server w1 sent,
    init [] w0 = (Normal server, w1)
    /\ outbound (snd (callTool server tool_name (JObject props) w))
       = outbound w ++ [sent]
    /\ JSON_parse (body sent)
       = Some (JObject ((js "query", JString q)
                        :: match lookup (js "variables") props with
                           | Some (JObject vars) =>
                               [(js "variables",
                                 written (JObject (filter kept_key vars)))]
                           | _ => []
                           end)).
Proof.
  intros Hacc Hq Hd.
  pose proof (parsed_arguments props q Hq) as Hparsed.
  exists [registered_tool]. eexists.
  exists (graphql_request q (arg_variables (parsed_shape tool_schema props))).
  split; [apply init_run|].
  rewrite (callTool_accepted props q w Hacc Hq).
  destruct (callback_run q (arg_variables (parsed_shape tool_schema props)) w)
    as (_ & Ho).
  split; [exact Ho|].
  unfold accepts_shape, tool_schema in Hacc.
  cbn [forallb fst snd accepts] in Hacc. rewrite andb_true_r in Hacc.
  apply andb_true_iff in Hacc as [_ Hv].
  rewrite Hparsed.
  destruct (lookup (js "variables") props) as [[| | | | |vars]|] eqn:Ev;
    try discriminate Hv.
  - rewrite (parsed_record vars (Hd vars eq_refl)).
    change (arg_variables _) with (Some (filter kept_key vars)).
    apply request_body_parses. apply js_value_kept. apply (Hd vars eq_refl).
  - change (arg_variables _) with (@None (list (jstring * JSON))).
    apply (JSON_parse_stringify (JObject [(js "query", JString q)])).
    reflexivity.
Qed.

Lemma accepted_arguments_reach_the_request_witness :
  let w := fresh_world (inr partial_success_response) in
  (accepts_shape tool_schema (JObject dataset_arguments) = true
   /\ lookup (js "query") dataset_arguments = Some (JString dataset_query)
   /\ lookup (js "variables") dataset_arguments = Some (JObject dataset_variables)
   /\ js_value (JObject dataset_variables) = true)
  /\ exists server w1 sent,
       init [] w = (Normal server, w1)
       /\ outbound (snd (callTool server tool_name (JObject dataset_arguments) w))
          = outbound w ++ [sent]
       /\ JSON_parse (body sent)
          = Some (JObject [(js "query", JString dataset_query);
                           (js "variables", JObject dataset_variables)]).
Proof.
  cbv zeta. split; [repeat split|].
  apply (accepted_arguments_reach_the_request dataset_arguments dataset_query
           (fresh_world (inr partial_success_response))
           (fresh_world (inr partial_success_response)));
    [reflexivity | reflexivity |].
  intros vars H. injection H as <-. reflexivity.
Defined.

(** X10: when the outbound call yields a response that has a body, the
    relay has read that body by the time it returns, whatever the status and
    whether or not the body decodes; the flags of the responses of earlier
    calls are left as they were. *)
Theorem response_body_is_always_read query variables w r p :
  network w (length (outbound w)) (graphql_request query variables) = inr r ->
  payload r = Some p ->
  bodyUsed (snd (executeOpenNeuroGraphQLQuery query variables w))
  = bodyUsed w ++ [true].
Proof.
  destruct w as [con out flags net].
  cbn [console outbound bodyUsed network]. intros Hnet Hp. run.
  rewrite Hnet, Response_json_fresh, Hp.
  destruct p as [raw [v|]|e];
    [destruct (ok r); cbv [negb snd]; run
    | run; rewrite Response_text_used, Hp; cbv [snd]; run
    | run; rewrite Response_text_used, Hp; cbv [snd]; run ];
    reflexivity.
Qed.

Lemma response_body_is_always_read_witness :
  let w := {| console := []; outbound := [graphql_request (js "{ earlier }") None];
              bodyUsed := [false];
              network := fun _ _ => inr internal_error_response |} in
  (network w (length (outbound w)) (graphql_request dataset_query None)
   = inr internal_error_response
   /\ payload internal_error_response
      = Some (Delivered (JSON_stringify internal_error_body)
                (Some internal_error_body)))
  /\ bodyUsed (snd (executeOpenNeuroGraphQLQuery dataset_query None w))
     = [false; true].
Proof.
  cbv zeta. split; [split; reflexivity|].
  apply (response_body_is_always_read dataset_query None
           {| console := []; outbound := [graphql_request (js "{ earlier }") None];
              bodyUsed := [false];
              network := fun _ _ => inr internal_error_response |}
           internal_error_response
           (Delivered (JSON_stringify internal_error_body)
              (Some internal_error_body)));
    reflexivity.
Defined.

End Behaviour.
